(** * books_parser: a shallow embedding of the catalogue crawler

    The development follows [books_parser.py] top to bottom: the field
    parsers ([parse_price], [parse_rating]), the page fetcher ([get_soup])
    with its retry loop, the list and detail extractors, the crawl loop of
    [scrape], the assembling of the frame and [main].

    Python strings are modelled by [string], read as their UTF-8 encoding:
    the only characters the program inspects (comma, period, space, the ASCII
    digits and letters) are single bytes below 128 that never occur inside
    the encoding of another character, so replacing and matching them byte by
    byte is the same as doing so code point by code point. *)

From Stdlib Require Import QArith Ascii.
From stdpp Require Import gmap strings list fin_maps pretty.

Local Open Scope string_scope.

(** ** Strings *)

Module Str.

(** [s.replace(a, b)] for one-character [a] and [b]. *)
Fixpoint replace (a b : ascii) (s : string) : string :=
  match s with
  | EmptyString => EmptyString
  | String c s' => String (if Ascii.eqb c a then b else c) (replace a b s')
  end.

(** The character class [[0-9]]. *)
Definition is_digit (c : ascii) : bool :=
  let n := N_of_ascii c in ((48 <=? n) && (n <=? 57))%N.

(** [Forall]/[Exists] on the characters of a string, as booleans. *)
Fixpoint all_chars (p : ascii → bool) (s : string) : bool :=
  match s with
  | EmptyString => true
  | String c s' => p c && all_chars p s'
  end.

Fixpoint any_char (p : ascii → bool) (s : string) : bool :=
  match s with
  | EmptyString => false
  | String c s' => p c || any_char p s'
  end.

(** The longest prefix of [s] made of characters in the class [p], and what
    follows it: a greedy [[p]*]. *)
Fixpoint span (p : ascii → bool) (s : string) : string * string :=
  match s with
  | EmptyString => (EmptyString, EmptyString)
  | String c s' =>
      if p c then let '(h, t) := span p s' in (String c h, t)
      else (EmptyString, s)
  end.

(** [s.lower()] on the ASCII letters; bytes of other characters are left
    as they are. *)
Definition lower_char (c : ascii) : ascii :=
  let n := N_of_ascii c in
  if ((65 <=? n) && (n <=? 90))%N then ascii_of_N (n + 32) else c.

Fixpoint lower (s : string) : string :=
  match s with
  | EmptyString => EmptyString
  | String c s' => String (lower_char c) (lower s')
  end.

(** [s.endswith(suffix)]. *)
Definition endswith (s suffix : string) : bool :=
  let n := String.length s in
  let k := String.length suffix in
  (k <=? n)%nat && String.eqb (String.substring (n - k) k s) suffix.

(** Python truthiness of a string. *)
Definition truthy (s : string) : bool :=
  match s with EmptyString => false | _ => true end.

End Str.

(** ** Field parsers *)

(** *** The regular expression of [parse_price]

    [re.search(r"([0-9]+(?:\.[0-9]+)?)", s)] is a backtracking search: the
    start positions are tried from the left, and at a start position
    [[0-9]+] is greedy, then the optional group [(?:\.[0-9]+)?] is tried
    before the empty alternative. Once [[0-9]+] has taken a non-empty run of
    digits the rest of the pattern cannot fail (the group is optional), so no
    backtracking into the run ever happens. *)
Module Re.

(** [(?:\.[0-9]+)?] at the head of [s]: the text it consumes. *)
Definition opt_fraction (s : string) : string :=
  match s with
  | String "." s' =>
      match Str.span Str.is_digit s' with
      | (EmptyString, _) => EmptyString
      | (ds, _) => String "." ds
      end
  | _ => EmptyString
  end.

(** The whole pattern anchored at the head of [s]: group 1 when it
    matches there. *)
Definition match_number (s : string) : option string :=
  match Str.span Str.is_digit s with
  | (EmptyString, _) => None
  | (ds, rest) => Some (ds +:+ opt_fraction rest)
  end.

(** [re.search]: the match at the leftmost start position that has one. *)
Fixpoint search_number (s : string) : option string :=
  match match_number s with
  | Some tok => Some tok
  | None =>
      match s with
      | EmptyString => None
      | String _ s' => search_number s'
      end
  end.

End Re.

(** *** [float] of a token [digits] or [digits.digits]

    The value is kept as the exact decimal fraction the token denotes, in
    lowest terms; Python's [float] is the binary64 number nearest to it. Two
    tokens with the same decimal value give the same float. *)
Module Float.

Definition digit_val (c : ascii) : Z := Z.of_N (N_of_ascii c) - 48.

(** The number written by a string of digits, after the digits [acc]. *)
Fixpoint digits_val (acc : Z) (s : string) : Z :=
  match s with
  | EmptyString => acc
  | String c s' => digits_val (10 * acc + digit_val c) s'
  end.

Definition of_token (tok : string) : Q :=
  let '(ip, rest) := Str.span Str.is_digit tok in
  let fp := match rest with String "." f => f | _ => EmptyString end in
  Qred (Qmake (digits_val 0 (ip +:+ fp))
              (Z.to_pos (10 ^ Z.of_nat (String.length fp)))).

End Float.

(** [parse_price(text)]. *)
Definition parse_price (text : string) : option Q :=
  if negb (Str.truthy text) then None
  else
    match Re.search_number (Str.replace "," "." text) with
    | Some g1 => Some (Float.of_token g1)
    | None => None
    end.

(** A tag as [parse_rating] sees it: its [class] attribute, a list of class
    names when present ([tag.get("class", [])] is the empty list otherwise).
    A [Tag] object is always truthy, so [not tag] is [tag is None]. *)
Record Tag := { tag_class : option (list string) }.

Definition tag_get_class (t : Tag) : list string :=
  default [] (tag_class t).

(** The dictionary [mapping] of [parse_rating]. *)
Definition rating_mapping (cls : string) : option Z :=
  if String.eqb cls "One" then Some 1%Z
  else if String.eqb cls "Two" then Some 2%Z
  else if String.eqb cls "Three" then Some 3%Z
  else if String.eqb cls "Four" then Some 4%Z
  else if String.eqb cls "Five" then Some 5%Z
  else None.

(** The [for cls in ...] loop of [parse_rating]. *)
Fixpoint first_rating (classes : list string) : option Z :=
  match classes with
  | [] => None
  | cls :: rest =>
      match rating_mapping cls with
      | Some n => Some n
      | None => first_rating rest
      end
  end.

(** [parse_rating(tag)]. *)
Definition parse_rating (tag : option Tag) : option Z :=
  match tag with
  | None => None
  | Some t => first_rating (tag_get_class t)
  end.

(** ** Python values, dictionaries and exceptions *)

(** The cell values the program stores in an item: [None], a [str], the
    [int] of a rating, the [float] of a price. *)
Inductive value :=
| VNone
| VStr (s : string)
| VInt (n : Z)
| VFloat (q : Q).

#[global] Instance Q_eq_dec : EqDecision Q.
Proof. solve_decision. Defined.

#[global] Instance value_eq_dec : EqDecision value.
Proof. solve_decision. Defined.

(** An item is a Python [dict] from field names to cells. *)
Abbreviation Dict := (gmap string value).

(** The exceptions that occur. [RequestException] stands for
    [requests.RequestException] and all its subclasses ([HTTPError],
    [ConnectionError], [Timeout], ...); every constructor is an [Exception]. *)
Inductive exn :=
| RequestException (msg : string)
| RuntimeError (msg : string)
| AttributeError (msg : string)
| KeyError (key : string).

(** [str(e)]. *)
Definition str_exn (e : exn) : string :=
  match e with
  | RequestException msg => msg
  | RuntimeError msg => msg
  | AttributeError msg => msg
  | KeyError key => "'" +:+ key +:+ "'"
  end.

(** [f"{last_exc}"] for the optional exception of [get_soup]. *)
Definition str_last_exc (last_exc : option exn) : string :=
  match last_exc with
  | None => "None"
  | Some e => str_exn e
  end.

(** [f"Failed to load {url}: {last_exc}"]. *)
Definition failed_to_load (url : string) (last_exc : option exn) : string :=
  "Failed to load " +:+ url +:+ ": " +:+ str_last_exc last_exc.

(** ** The document tree

    A parsed page is modelled by what the selectors of the program find in
    it. Texts are those returned by [get_text(strip=True)]. *)

(** An [a] element: its [title] and [href] attributes and its text. *)
Record Anchor := {
  a_title : option string;
  a_text : string;
  a_href : option string }.

(** An [article.product_pod] card. *)
Record Card := {
  card_link : option Anchor;      (* card.select_one("h3 a") *)
  card_price : option string;     (* text of card.select_one("p.price_color") *)
  card_rating : option Tag;       (* card.select_one("p.star-rating") *)
  card_avail : option string }.   (* text of card.select_one("p.instock.availability") *)

Record Soup := {
  product_pods : list Card;               (* soup.select("article.product_pod") *)
  next_link : option (option string);     (* soup.select_one("li.next a"), its href *)
  breadcrumb : list string;               (* texts of soup.select("ul.breadcrumb li a") *)
  description_header : option (option string);
                                          (* soup.select_one("#product_description"),
                                             text of its find_next("p") *)
  table_rows : option (list (option string * option string));
                                          (* soup.select_one("table.table"); for each
                                             tr the texts of row.find("th"), row.find("td") *)
  active_img : option (option string);    (* soup.select_one(".item.active img"), its src *)
  first_img : option (option string) }.   (* soup.select_one("img"), its src *)

(** ** The outside world *)

(** A response of the server, as far as the program reads it. *)
Record Response := {
  status_code : Z;
  reason : string;
  resp_url : string;
  text : string }.

(** What [session.get] does: it returns a response or raises a
    [RequestException] with the given text. *)
Inductive http_outcome :=
| Responded (resp : Response)
| Failed (msg : string).

Inductive file_format := Csv | Excel.

(** Everything the program does to the outside, in the order it does it. *)
Inductive event :=
| EvGet (url : string)
| EvSleep (seconds : Z)
| EvPrint (line : string)
| EvWrite (fmt : file_format) (path : string) (frame : list Dict).

Abbreviation World := (list event).

(** A computation returns, raises, or is cut off by the fuel of the crawl
    loop (the only loop of the program that is not bounded). *)
Inductive result (A : Type) :=
| Ret (a : A)
| Raise (e : exn)
| OutOfFuel.
Arguments Ret {A} a.
Arguments Raise {A} e.
Arguments OutOfFuel {A}.

Definition M (A : Type) : Type := World → result A * World.

Definition ret {A} (a : A) : M A := fun w => (Ret a, w).
Definition raise {A} (e : exn) : M A := fun w => (Raise e, w).
Definition lift {A} (r : result A) : M A := fun w => (r, w).
Definition emit (ev : event) : M unit := fun w => (Ret tt, (w ++ [ev])%list).

Definition bind {A B} (m : M A) (k : A → M B) : M B :=
  fun w =>
    match m w with
    | (Ret a, w') => k a w'
    | (Raise e, w') => (Raise e, w')
    | (OutOfFuel, w') => (OutOfFuel, w')
    end.

(** [try: m / except Exception as e: h e]. *)
Definition try_except {A} (m : M A) (h : exn → M A) : M A :=
  fun w =>
    match m w with
    | (Raise e, w') => h e w'
    | r => r
    end.

Declare Scope py_scope.
Delimit Scope py_scope with py.
Notation "'let*' x ':=' m 'in' k" := (bind m (fun x => k))
  (at level 10, x name, m at level 100, k at level 200) : py_scope.
Notation "'run' m 'in' k" := (bind m (fun _ => k))
  (at level 10, m at level 100, k at level 200) : py_scope.
Local Open Scope py_scope.

(** Python truthiness of an optional string ([while url:]). *)
Definition truthy_url (url : option string) : bool :=
  match url with
  | Some u => Str.truthy u
  | None => false
  end.

(** [max_pages and page >= max_pages]: [None] and [0] are falsy. *)
Definition limit_reached (max_pages : option Z) (page : Z) : bool :=
  match max_pages with
  | Some n => negb (n =? 0)%Z && (n <=? page)%Z
  | None => false
  end.

(** [range(n)]. *)
Definition range (n : Z) : list Z := Z.of_nat <$> seq 0 (Z.to_nat n).

(** [Response.raise_for_status] of requests: the text of its [HTTPError],
    [f"{status_code} {kind} Error: {reason} for url: {url}"], and the
    error it raises, if any. *)
Definition http_error_msg (kind : string) (resp : Response) : string :=
  pretty (status_code resp) +:+ " " +:+ kind +:+ " Error: " +:+ reason resp
  +:+ " for url: " +:+ resp_url resp.

Definition raise_for_status (resp : Response) : option exn :=
  let st := status_code resp in
  if ((400 <=? st) && (st <? 500))%Z then
    Some (RequestException (http_error_msg "Client" resp))
  else if ((500 <=? st) && (st <? 600))%Z then
    Some (RequestException (http_error_msg "Server" resp))
  else None.

(** The status test of [get_soup]:
    [resp.status_code in (429,) or 500 <= resp.status_code < 600]. *)
Definition retry_status (st : Z) : bool :=
  ((st =? 429) || ((500 <=? st) && (st <? 600)))%Z.

Section Program.

(** The collaborators: the server behind [session.get], which answers a
    request knowing everything that happened before it; the HTML parser
    [BeautifulSoup(text, "html.parser")]; the reference resolution of
    [urllib.parse.urljoin] on two non-empty strings; and
    [" ".join(s.split())]. *)
Variable transport : World → string → http_outcome.
Variable html_parser : string → Soup.
Variable resolve : string → string → string.
Variable split_join : string → string.

(** [urljoin(base, url)], where [url] may be [None]: its two guards
    ([if not base: return url], [if not url: return base]), then the
    resolution. Every call of the program has a non-empty [base] or a [url]
    that is a string, so the result is a string. *)
Definition urljoin (base : string) (url : option string) : string :=
  match url with
  | None => base
  | Some u =>
      if negb (Str.truthy base) then u
      else if negb (Str.truthy u) then base
      else resolve base u
  end.

(** ** Page fetcher *)

(** [backoff_sleep(attempt)]. *)
Definition backoff_sleep (attempt : Z) : M unit :=
  emit (EvSleep (Z.min (2 ^ attempt) 10)).

(** [session.get(url, headers=HEADERS, timeout=timeout)]. *)
Definition session_get (url : string) : M http_outcome :=
  fun w => (Ret (transport w url), (w ++ [EvGet url])%list).

(** The [for attempt in range(max_retries)] loop of [get_soup] on the
    attempts still to make, and the [raise] after it. *)
Fixpoint get_soup_loop (url : string) (attempts : list Z)
    (last_exc : option exn) : M Soup :=
  match attempts with
  | [] =>
      raise (RuntimeError (failed_to_load url last_exc))
  | attempt :: rest =>
      let* o := session_get url in
      match o with
      | Failed msg =>
          (* except requests.RequestException as e *)
          run backoff_sleep attempt in
          get_soup_loop url rest (Some (RequestException msg))
      | Responded resp =>
          if retry_status (status_code resp) then
            run backoff_sleep attempt in
            get_soup_loop url rest last_exc
          else
            match raise_for_status resp with
            | Some e =>
                (* raised inside the try: the same except clause *)
                run backoff_sleep attempt in
                get_soup_loop url rest (Some e)
            | None => ret (html_parser (text resp))
            end
      end
  end.

(** [get_soup(url, session, max_retries)]. *)
Definition get_soup (url : string) (max_retries : Z) : M Soup :=
  get_soup_loop url (range max_retries) None.

Definition default_max_retries : Z := 3.

(** ** List-page extractor *)

(** The body of the [for card in ...] loop of [parse_list_page]: the item
    of one card. [card.select_one("h3 a")] may find nothing, and then
    [a.get] raises. *)
Definition parse_card (card : Card) (base_url : string) : result Dict :=
  match card_link card with
  | None =>
      Raise (AttributeError "'NoneType' object has no attribute 'get'")
  | Some a =>
      let title :=
        match a_title a with
        | Some t => if Str.truthy t then t else a_text a
        | None => a_text a
        end in
      let product_url := urljoin base_url (a_href a) in
      let price := parse_price (default "" (card_price card)) in
      let rating := parse_rating (card_rating card) in
      Ret (<["title" := VStr title]>
          (<["price" := from_option VFloat VNone price]>
          (<["rating" := from_option VInt VNone rating]>
          (<["availability" :=
               from_option (λ t, VStr (split_join t)) VNone (card_avail card)]>
          (<["product_url" := VStr product_url]> ∅)))))
  end.

Fixpoint parse_cards (cards : list Card) (base_url : string)
    : result (list Dict) :=
  match cards with
  | [] => Ret []
  | card :: rest =>
      match parse_card card base_url with
      | Ret it =>
          match parse_cards rest base_url with
          | Ret its => Ret (it :: its)
          | r => r
          end
      | Raise e => Raise e
      | OutOfFuel => OutOfFuel
      end
  end.

(** [parse_list_page(soup, base_url)]. *)
Definition parse_list_page (soup : Soup) (base_url : string)
    : result (list Dict) :=
  parse_cards (product_pods soup) base_url.

(** [find_next_page(soup, current_url)]. *)
Definition find_next_page (soup : Soup) (current_url : string)
    : option string :=
  match next_link soup with
  | Some href => Some (urljoin current_url href)
  | None => None
  end.

(** ** Detail-page extractor *)

(** [th.get_text(strip=True).lower().replace(" ", "_")]. *)
Definition table_key (th_text : string) : string :=
  Str.replace " " "_" (Str.lower th_text).

(** The [for row in table.select("tr")] loop: [details] after the rows. *)
Fixpoint table_details (rows : list (option string * option string))
    (details : Dict) : Dict :=
  match rows with
  | [] => details
  | (Some th, Some td) :: rest =>
      table_details rest (<[table_key th := VStr td]> details)
  | _ :: rest => table_details rest details
  end.

(** What [parse_details] computes from the fetched page. *)
Definition details_of_soup (soup : Soup) (product_url : string) : Dict :=
  let crumbs := breadcrumb soup in
  let category :=
    if (3 <=? length crumbs)%nat then from_option VStr VNone (last crumbs)
    else VNone in
  let description :=
    match description_header soup with
    | Some (Some p) => VStr p
    | _ => VNone
    end in
  let details :=
    match table_rows soup with
    | Some rows => table_details rows ∅
    | None => ∅
    end in
  let img :=
    match active_img soup with
    | Some i => Some i
    | None => first_img soup
    end in
  let image_url :=
    match img with
    | Some (Some src) =>
        if Str.truthy src then VStr (urljoin product_url (Some src))
        else VNone
    | _ => VNone
    end in
  (* {"category": ..., "description": ..., "image_url": ..., **details} *)
  details ∪ (<["category" := category]>
            (<["description" := description]>
            (<["image_url" := image_url]> ∅))).

(** [parse_details(product_url, session)]. *)
Definition parse_details (product_url : string) : M Dict :=
  let* soup := get_soup product_url default_max_retries in
  ret (details_of_soup soup product_url).

(** ** Crawl orchestrator *)

(** [it["product_url"]] as the argument of [parse_details]. A missing key
    raises [KeyError]. Every item of [parse_list_page] holds a string
    there, and the detail pass only ever writes strings to it, so the
    catch-all case is not reached by [scrape]. *)
Definition item_url (it : Dict) : result string :=
  match it !! "product_url" with
  | Some (VStr u) => Ret u
  | _ => Raise (KeyError "product_url")
  end.

(** [it.update(extra)]: the keys of [extra] win. *)
Definition dict_update (it extra : Dict) : Dict := extra ∪ it.

(** [parse_details(it["product_url"], session=session)]. *)
Definition extract_details (it : Dict) : M Dict :=
  let* url := lift (item_url it) in
  parse_details url.

(** The body of [for it in items]: the [try]/[except Exception]. *)
Definition detail_item (it : Dict) : M Dict :=
  try_except
    (let* extra := extract_details it in
     ret (dict_update it extra))
    (λ e, ret (<["details_error" := VStr (str_exn e)]> it)).

(** [for it in items: ...]: the items after the pass. *)
Fixpoint detail_pass (items : list Dict) : M (list Dict) :=
  match items with
  | [] => ret []
  | it :: rest =>
      let* it' := detail_item it in
      let* rest' := detail_pass rest in
      ret (it' :: rest')
  end.

(** [if with_details: for it in items: ...]. *)
Definition with_details_pass (with_details : bool) (items : list Dict)
    : M (list Dict) :=
  if with_details then detail_pass items else ret items.

(** The state of the crawl when the [while] loop is left. *)
Record CrawlState := {
  cs_url : option string;
  cs_page : Z;
  cs_rows : list Dict }.

(** The [while url:] loop of [scrape], from the state [url], [page],
    [rows] at the head of the loop. Each iteration costs one unit of
    fuel. *)
Fixpoint crawl (fuel : nat) (max_pages : option Z) (with_details : bool)
    (url : option string) (page : Z) (rows : list Dict) : M CrawlState :=
  if negb (truthy_url url) then
    ret {| cs_url := url; cs_page := page; cs_rows := rows |}
  else
    match fuel with
    | O => lift OutOfFuel
    | S fuel' =>
        let u := default "" url in
        let page := (page + 1)%Z in
        let* soup := get_soup u default_max_retries in
        let* items := lift (parse_list_page soup u) in
        let* items := with_details_pass with_details items in
        let rows := (rows ++ items)%list in
        if limit_reached max_pages page then
          ret {| cs_url := url; cs_page := page; cs_rows := rows |}
        else
          crawl fuel' max_pages with_details (find_next_page soup u)
                page rows
    end.

(** ** Result assembler

    A frame is modelled by its rows, each a map from the column names to
    the cells it has; a column missing from a row is a NaN cell. The order
    of the columns, the only thing [df = df[cols]] changes, is not
    represented. *)

(** [df.columns], as a set. *)
Definition df_columns (df : list Dict) : gset string :=
  ⋃ (dom <$> df).

(** [df.empty]: no rows or no columns. *)
Definition df_empty (df : list Dict) : bool :=
  bool_decide (df = []) || bool_decide (df_columns df = ∅).

(** [df.drop_duplicates(subset=[col])] with the default [keep="first"], on
    a frame that has the column: a row goes when an earlier row has the
    same cell in [col]. [seen] holds the cells of the rows before. Cells are
    compared as they are stored; for the strings of [product_url] this is
    the comparison pandas makes. *)
Fixpoint drop_dups (col : string) (seen : list (option value))
    (df : list Dict) : list Dict :=
  match df with
  | [] => []
  | r :: rest =>
      if bool_decide (r !! col ∈ seen) then drop_dups col seen rest
      else r :: drop_dups col (r !! col :: seen) rest
  end.

(** [drop_duplicates] raises [KeyError] for a column the frame lacks. *)
Definition drop_duplicates (col : string) (df : list Dict)
    : result (list Dict) :=
  if bool_decide (col ∈ df_columns df) then Ret (drop_dups col [] df)
  else Raise (KeyError col).

(** The end of [scrape]: from [rows] to the frame returned. *)
Definition assemble (rows : list Dict) : result (list Dict) :=
  let df := rows in
  if negb (df_empty df) then drop_duplicates "product_url" df
  else Ret df.

(** [scrape(start_url, max_pages, with_details)]. *)
Definition scrape (fuel : nat) (start_url : string) (max_pages : option Z)
    (with_details : bool) : M (list Dict) :=
  let* st := crawl fuel max_pages with_details (Some start_url) 0 [] in
  lift (assemble (cs_rows st)).

(** ** [main] *)

(** The parsed command line. *)
Record Args := {
  start_url : string;
  max_pages : Z;
  details : bool;
  output : string }.

Definition arrow : string :=
  String (ascii_of_nat 226) (String (ascii_of_nat 134)
    (String (ascii_of_nat 146) EmptyString)).

(** [None if args.max_pages == 0 else args.max_pages]. *)
Definition max_pages_arg (args : Args) : option Z :=
  if (max_pages args =? 0)%Z then None else Some (max_pages args).

(** [main()], after [parser.parse_args()]. *)
Definition main (fuel : nat) (args : Args) : M unit :=
  let max_pages := max_pages_arg args in
  let* df := scrape fuel (start_url args) max_pages (details args) in
  if df_empty df then
    emit (EvPrint "No data collected.")
  else
    run (if Str.endswith (Str.lower (output args)) ".csv"
         then emit (EvWrite Csv (output args) df)
         else emit (EvWrite Excel (output args) df)) in
    emit (EvPrint ("Saved " +:+ pretty (length df) +:+ " records "
                   +:+ arrow +:+ " " +:+ output args)).

End Program.

(** ** The first numeric token, said without the search

    A numeric token is a non-empty run of digits, or two such runs around a
    period. The first token of a text starts at its first digit and is as
    long as it can be. *)
Module PriceSpec.

Definition digits (s : string) : Prop :=
  s ≠ "" ∧ Str.all_chars Str.is_digit s = true.

Definition starts_with_digit (s : string) : bool :=
  match s with
  | String c _ => Str.is_digit c
  | EmptyString => false
  end.

Definition starts_with_fraction (s : string) : bool :=
  match s with
  | String "." s' => starts_with_digit s'
  | _ => false
  end.

Inductive first_token (s : string) : string → Prop :=
| first_int pre d post :
    s = pre +:+ (d +:+ post) →
    Str.any_char Str.is_digit pre = false →
    digits d →
    starts_with_digit post = false →
    starts_with_fraction post = false →
    first_token s d
| first_frac pre d1 d2 post :
    s = pre +:+ (d1 +:+ (String "." d2 +:+ post)) →
    Str.any_char Str.is_digit pre = false →
    digits d1 →
    digits d2 →
    starts_with_digit post = false →
    first_token s (d1 +:+ String "." d2).

End PriceSpec.

(** The closed table of rank tokens. *)
Definition rating_tokens : list (string * Z) :=
  [("One", 1%Z); ("Two", 2%Z); ("Three", 3%Z); ("Four", 4%Z); ("Five", 5%Z)].

Definition pound : string :=
  String (ascii_of_nat 194) (String (ascii_of_nat 163) EmptyString).

(** ** A small catalogue

    Three list pages [p1], [p2], [p3] chained by their next links, with the
    books [b1], [b2] on the first, [b3] and [b1] again on the second and
    none on the third. The server answers 404 for [b2], 503 for [down] and
    refuses the connection for any other address. References are resolved
    to themselves. *)
Module Demo.

Definition page (url : string) : Response :=
  {| status_code := 200; reason := "OK"; resp_url := url; text := url |}.

Definition transport (w : World) (url : string) : http_outcome :=
  if bool_decide (url ∈ ["p1"; "p2"; "p3"; "b1"; "b3"]) then
    Responded (page url)
  else if String.eqb url "b2" then
    Responded {| status_code := 404; reason := "Not Found";
                 resp_url := url; text := "" |}
  else if String.eqb url "down" then
    Responded {| status_code := 503; reason := "Service Unavailable";
                 resp_url := url; text := "" |}
  else Failed "connection refused".

(** The same server with the first answer for [b1] lost. *)
Definition flaky (w : World) (url : string) : http_outcome :=
  let asked ev :=
    match ev with EvGet u => String.eqb u "b1" | _ => false end in
  if String.eqb url "b1" && negb (existsb asked w) then
    Failed "timed out"
  else transport w url.

Definition blank : Soup :=
  {| product_pods := []; next_link := None; breadcrumb := [];
     description_header := None; table_rows := None;
     active_img := None; first_img := None |}.

Definition card (title href price rank : string) : Card :=
  {| card_link := Some {| a_title := Some title; a_text := title;
                          a_href := Some href |};
     card_price := Some price;
     card_rating := Some {| tag_class := Some ["star-rating"; rank] |};
     card_avail := Some "In stock" |}.

Definition listing (cards : list Card) (next : option (option string))
    : Soup :=
  {| product_pods := cards; next_link := next; breadcrumb := [];
     description_header := None; table_rows := None;
     active_img := None; first_img := None |}.

Definition book_page : Soup :=
  {| product_pods := []; next_link := None;
     breadcrumb := ["Home"; "Books"; "Poetry"];
     description_header := Some (Some "A book.");
     table_rows := Some [(Some "UPC", Some "a897");
                         (Some "Title", Some "From the table");
                         (None, Some "stray");
                         (Some "Price", Some "free")];
     active_img := None; first_img := Some (Some "cover.jpg") |}.

Definition html_parser (body : string) : Soup :=
  if String.eqb body "p1" then
    listing [card "One book" "b1" (pound +:+ "51.77") "Three";
             card "Two book" "b2" (pound +:+ "53.74") "One"]
            (Some (Some "p2"))
  else if String.eqb body "p2" then
    listing [card "Third" "b3" "10,50" "Five";
             card "One book again" "b1" "1" "Two"]
            (Some (Some "p3"))
  else if String.eqb body "p3" then listing [] None
  else if String.eqb body "b1" then book_page
  else blank.

Definition resolve (base url : string) : string := url.
Definition split_join (s : string) : string := s.

Definition crawl :=
  crawl transport html_parser resolve split_join.
Definition get_soup := get_soup transport html_parser.
Definition detail_item := detail_item transport html_parser resolve.
Definition main := main transport html_parser resolve split_join.

Definition detail_pass := detail_pass transport html_parser resolve.

Definition item1 : Dict :=
  <["title" := VStr "One book"]>
  (<["price" := VFloat 51.77%Q]>
  (<["rating" := VInt 3]>
  (<["availability" := VStr "In stock"]>
  (<["product_url" := VStr "b1"]> ∅)))).

Definition item2 : Dict :=
  <["title" := VStr "Two book"]>
  (<["price" := VFloat (Qred 53.74%Q)]>
  (<["rating" := VInt 1]>
  (<["availability" := VStr "In stock"]>
  (<["product_url" := VStr "b2"]> ∅)))).

(** The first book, met again on a later page. *)
Definition item1_again : Dict := <["title" := VStr "One book again"]> item1.

End Demo.

(** ** Words for the statements about the crawl *)

(** The events of the network: requests and sleeps. *)
Definition net_event (ev : event) : Prop :=
  match ev with
  | EvGet _ | EvSleep _ => True
  | _ => False
  end.

(** A computation that only adds network events to the world. *)
Definition net_only {A} (m : M A) : Prop :=
  ∀ w, ∃ evs, (m w).2 = (w ++ evs)%list ∧ Forall net_event evs.

(** A computation that never runs out of fuel, and one that always
    returns. *)
Definition bounded {A} (m : M A) : Prop := ∀ w, (m w).1 ≠ OutOfFuel.
Definition total {A} (m : M A) : Prop := ∀ w, ∃ a, (m w).1 = Ret a.

(** An item whose [product_url] cell holds a string. *)
Definition has_url (it : Dict) : Prop :=
  ∃ u, it !! "product_url" = Some (VStr u).

(** A table row that does not write the key [k]. *)
Definition other_key (k : string) (row : option string * option string)
    : Prop :=
  match row with
  | (Some th, Some _) => table_key th ≠ k
  | _ => True
  end.

(** ** Words for the statements about the fetcher *)

(** What a run of failed attempts leaves in the world: a request and a
    sleep for each attempt. *)
Definition retry_trace (url : string) (attempts : list Z) : World :=
  flat_map (λ attempt, [EvGet url; EvSleep (Z.min (2 ^ attempt) 10)])
           attempts.

(** The fetch raises after a single request and no sleep. *)
Definition fails_fast (transport : World → string → http_outcome)
    (html_parser : string → Soup) (url : string) (max_retries : Z)
    (w : World) : Prop :=
  ∃ e, get_soup transport html_parser url max_retries w
       = (Raise e, (w ++ [EvGet url])%list).

(** ** The order of the columns

    The list [preferred] of [scrape] and the list [cols] it computes from
    the names in [df.columns]:
    [[c for c in preferred if c in df.columns]
     + [c for c in df.columns if c not in preferred]]. *)
Definition preferred : list string :=
  ["title"; "price"; "rating"; "availability"; "category"; "product_url";
   "description"; "image_url"].

Definition order_columns (columns : list string) : list string :=
  (filter (λ c, c ∈ columns) preferred
   ++ filter (λ c, c ∉ preferred) columns)%list.

(** ** Words for the further properties *)

(** An attempt of [get_soup] that does not return: the request raises, the
    status is 429 or 5xx, or [raise_for_status] raises. *)
Definition attempt_fails (o : http_outcome) : bool :=
  match o with
  | Failed _ => true
  | Responded resp =>
      retry_status (status_code resp)
      || match raise_for_status resp with Some _ => true | None => false end
  end.


Definition detail_fields : gset string :=
  {["category"; "description"; "image_url"]}.



(** ** Two more sites

    [loop] is a list page whose next link has no [href]; [q1] is a list page
    whose next link leads to an address that refuses the connection. *)
Module Demo2.

Definition transport (w : World) (url : string) : http_outcome :=
  if bool_decide (url ∈ ["loop"; "q1"]) then Responded (Demo.page url)
  else Failed "connection refused".

Definition html_parser (body : string) : Soup :=
  if String.eqb body "loop" then
    Demo.listing [Demo.card "One book" "b1" (pound +:+ "51.77") "Three"]
                 (Some None)
  else if String.eqb body "q1" then
    Demo.listing [Demo.card "One book" "b1" (pound +:+ "51.77") "Three"]
                 (Some (Some "nowhere"))
  else Demo.blank.

Definition crawl :=
  crawl transport html_parser Demo.resolve Demo.split_join.
Definition main :=
  main transport html_parser Demo.resolve Demo.split_join.

End Demo2.

(** * Proofs *)

(** ** Field parsers *)

Lemma app_nil (s : string) : "" +:+ s = s.
Proof. reflexivity. Qed.

Lemma app_cons (c : ascii) (s t : string) :
  String c s +:+ t = String c (s +:+ t).
Proof. reflexivity. Qed.

Section SpanFacts.

Variable p : ascii → bool.

Lemma span_app (s h t : string) :
  Str.span p s = (h, t) → s = h +:+ t.
Proof.
  revert h t. induction s as [|c s IH]; simpl; intros h t Hs.
  - by inversion Hs.
  - destruct (p c).
    + destruct (Str.span p s) as [h' t'] eqn:E. inversion Hs; subst.
      rewrite app_cons. f_equal. by apply IH.
    + by inversion Hs.
Qed.

Lemma span_all (s h t : string) :
  Str.span p s = (h, t) → Str.all_chars p h = true.
Proof.
  revert h t. induction s as [|c s IH]; simpl; intros h t Hs.
  - by inversion Hs.
  - destruct (p c) eqn:Hc.
    + destruct (Str.span p s) as [h' t'] eqn:E. inversion Hs; subst.
      simpl. rewrite Hc. simpl. by eapply IH.
    + by inversion Hs.
Qed.

Lemma span_stop (s h t : string) :
  Str.span p s = (h, t) →
  match t with String c _ => p c = false | EmptyString => True end.
Proof.
  revert h t. induction s as [|c s IH]; simpl; intros h t Hs.
  - by inversion Hs.
  - destruct (p c) eqn:Hc.
    + destruct (Str.span p s) as [h' t'] eqn:E. inversion Hs; subst.
      by eapply IH.
    + inversion Hs; by subst.
Qed.

Lemma span_intro (h t : string) :
  Str.all_chars p h = true →
  match t with String c _ => p c = false | EmptyString => True end →
  Str.span p (h +:+ t) = (h, t).
Proof.
  intros Hh Ht. induction h as [|c h IH].
  - rewrite app_nil. destruct t as [|c t]; [done|]. simpl. by rewrite Ht.
  - simpl in Hh. apply andb_true_iff in Hh as [Hc Hh].
    rewrite app_cons. simpl. by rewrite Hc, (IH Hh).
Qed.

End SpanFacts.

Lemma starts_with_digit_stop (t : string) :
  PriceSpec.starts_with_digit t = false ↔
  match t with String c _ => Str.is_digit c = false | EmptyString => True end.
Proof. by destruct t. Qed.

Lemma opt_fraction_none (post : string) :
  PriceSpec.starts_with_fraction post = false → Re.opt_fraction post = "".
Proof.
  unfold Re.opt_fraction, PriceSpec.starts_with_fraction.
  destruct post as [|c post]; [done|].
  destruct (Ascii.eqb_spec c "."); [subst|].
  - intros Hd. destruct post as [|d post]; [done|]. simpl in *.
    by rewrite Hd.
  - intros _. repeat case_match; congruence.
Qed.

Lemma opt_fraction_some (d2 post : string) :
  PriceSpec.digits d2 →
  PriceSpec.starts_with_digit post = false →
  Re.opt_fraction (String "." d2 +:+ post) = String "." d2.
Proof.
  intros [Hne Hd] Hp. rewrite app_cons. unfold Re.opt_fraction.
  rewrite (span_intro _ d2 post Hd) by by apply starts_with_digit_stop.
  by destruct d2.
Qed.

Lemma match_number_at (d post : string) :
  PriceSpec.digits d →
  PriceSpec.starts_with_digit post = false →
  Re.match_number (d +:+ post) = Some (d +:+ Re.opt_fraction post).
Proof.
  intros [Hne Hd] Hp. unfold Re.match_number.
  rewrite (span_intro _ d post Hd) by by apply starts_with_digit_stop.
  by destruct d.
Qed.

Lemma search_number_skip (pre s : string) :
  Str.any_char Str.is_digit pre = false →
  is_Some (Re.match_number s) →
  Re.search_number (pre +:+ s) = Re.match_number s.
Proof.
  intros Hpre [tok Hs]. induction pre as [|c pre IH].
  - rewrite app_nil. destruct s; simpl; by rewrite Hs.
  - simpl in Hpre. apply orb_false_iff in Hpre as [Hc Hpre].
    rewrite app_cons. cbn [Re.search_number]. unfold Re.match_number at 1.
    cbn [Str.span]. rewrite Hc. by apply IH.
Qed.

Lemma app_empty_r (s : string) : s +:+ "" = s.
Proof. induction s as [|c s IH]; [done|]. by rewrite app_cons, IH. Qed.

Lemma search_number_complete (s tok : string) :
  PriceSpec.first_token s tok → Re.search_number s = Some tok.
Proof.
  intros [pre d post -> Hpre Hd Hp Hf | pre d1 d2 post -> Hpre Hd1 Hd2 Hp].
  - rewrite search_number_skip; [|done|]; rewrite match_number_at by done.
    + by rewrite opt_fraction_none, app_empty_r.
    + eauto.
  - assert (PriceSpec.starts_with_digit (String "." d2 +:+ post) = false)
      by done.
    rewrite search_number_skip; [|done|]; rewrite match_number_at by done.
    + by rewrite opt_fraction_some.
    + eauto.
Qed.

Lemma search_number_sound (s tok : string) :
  Re.search_number s = Some tok → PriceSpec.first_token s tok.
Proof.
  induction s as [|c s IH]; [done|].
  cbn [Re.search_number]. unfold Re.match_number. cbn [Str.span].
  destruct (Str.is_digit c) eqn:Hc.
  - destruct (Str.span Str.is_digit s) as [h t] eqn:E. intros [= <-].
    pose proof (span_app _ _ _ _ E) as ->.
    pose proof (span_all _ _ _ _ E) as Hh.
    pose proof (span_stop _ _ _ _ E) as Ht.
    apply starts_with_digit_stop in Ht.
    assert (PriceSpec.digits (String c h)) as Hd.
    { split; [done|]. simpl. by rewrite Hc, Hh. }
    destruct (PriceSpec.starts_with_fraction t) eqn:Hf.
    + destruct t as [|dot t]; [done|]. simpl in Hf.
      destruct (Ascii.eqb_spec dot "."); [subst|by repeat case_match].
      unfold Re.opt_fraction.
      destruct (Str.span Str.is_digit t) as [d2 post] eqn:E2.
      pose proof (span_app _ _ _ _ E2) as ->.
      pose proof (span_all _ _ _ _ E2) as Hd2.
      pose proof (span_stop _ _ _ _ E2) as Hp.
      apply starts_with_digit_stop in Hp.
      destruct d2 as [|c2 d2].
      { rewrite app_nil in Hf. by rewrite Hf in Hp. }
      apply (PriceSpec.first_frac _ "" (String c h) (String c2 d2) post);
        done.
    + rewrite opt_fraction_none, app_empty_r by done.
      by apply (PriceSpec.first_int _ "" (String c h) t).
  - intros Hs. apply IH in Hs. clear IH.
    destruct Hs as [pre d post E ? ? ? ? | pre d1 d2 post E ? ? ? ?];
      rewrite E.
    + apply (PriceSpec.first_int _ (String c pre) d post); try done.
      simpl. by rewrite Hc.
    + apply (PriceSpec.first_frac _ (String c pre) d1 d2 post); try done.
      simpl. by rewrite Hc.
Qed.

Lemma search_number_none (s : string) :
  Re.search_number s = None ↔ Str.any_char Str.is_digit s = false.
Proof.
  induction s as [|c s IH]; [done|].
  cbn [Re.search_number Str.any_char]. unfold Re.match_number.
  cbn [Str.span]. destruct (Str.is_digit c).
  - destruct (Str.span Str.is_digit s). done.
  - done.
Qed.

Lemma replace_comma_digits (s : string) :
  Str.any_char Str.is_digit (Str.replace "," "." s)
  = Str.any_char Str.is_digit s.
Proof.
  induction s as [|c s IH]; [done|]. simpl. rewrite IH. f_equal.
  destruct (Ascii.eqb_spec c ","); by subst.
Qed.

Lemma parse_price_search (text : string) :
  parse_price text
  = Float.of_token <$> Re.search_number (Str.replace "," "." text).
Proof.
  unfold parse_price. destruct text; [done|].
  simpl negb. cbv iota. by destruct (Re.search_number _).
Qed.

(** C6: [parse_price] is a function of its text alone: it is [float] of the
    first numeric token [digits[.digits]] of the text with commas replaced
    by periods, where the first token is characterised without the search
    ([PriceSpec.first_token]); it returns nothing exactly when the text has
    no digit, in particular on the empty text; and ["19.99"], ["19,99"] and
    the pound sign followed by ["19.99"] all give 19.99. *)
Theorem parse_price_first_token :
  (∀ text, parse_price text
           = Float.of_token <$> Re.search_number (Str.replace "," "." text))
  ∧ (∀ text tok, Re.search_number text = Some tok
                 ↔ PriceSpec.first_token text tok)
  ∧ (∀ text, parse_price text = None
             ↔ Str.any_char Str.is_digit text = false)
  ∧ parse_price "" = None
  ∧ parse_price "19.99" = Some 19.99%Q
  ∧ parse_price "19,99" = Some 19.99%Q
  ∧ parse_price (pound +:+ "19.99") = Some 19.99%Q.
Proof.
  split; [exact parse_price_search|].
  split.
  { intros text tok. split;
      [apply search_number_sound | apply search_number_complete]. }
  split.
  { intros text. rewrite parse_price_search, <- replace_comma_digits.
    rewrite <- search_number_none. by destruct (Re.search_number _). }
  repeat split; reflexivity.
Qed.

Lemma rating_mapping_tokens (cls : string) (n : Z) :
  rating_mapping cls = Some n ↔ (cls, n) ∈ rating_tokens.
Proof.
  unfold rating_mapping, rating_tokens. split.
  - repeat match goal with
           | |- context [String.eqb ?a ?b] =>
               destruct (String.eqb_spec a b) as [->|?];
               [intros [= <-]; set_solver|]
           end.
    done.
  - rewrite !elem_of_cons, elem_of_nil.
    intros [[= -> ->]|[[= -> ->]|[[= -> ->]|[[= -> ->]|[[= -> ->]|[]]]]]];
      reflexivity.
Qed.

Lemma rating_mapping_range (cls : string) (n : Z) :
  rating_mapping cls = Some n → (1 ≤ n ≤ 5)%Z.
Proof.
  rewrite rating_mapping_tokens. unfold rating_tokens.
  rewrite !elem_of_cons, elem_of_nil.
  intros [[= -> ->]|[[= -> ->]|[[= -> ->]|[[= -> ->]|[[= -> ->]|[]]]]]]; lia.
Qed.

Lemma first_rating_found (pre post : list string) (cls : string) (n : Z) :
  Forall (λ c, rating_mapping c = None) pre →
  rating_mapping cls = Some n →
  first_rating (pre ++ cls :: post)%list = Some n.
Proof.
  intros Hpre Hcls. induction Hpre as [|c pre Hc _ IH]; simpl.
  - by rewrite Hcls.
  - by rewrite Hc.
Qed.

Lemma first_rating_inv (classes : list string) (n : Z) :
  first_rating classes = Some n →
  ∃ pre cls post, classes = (pre ++ cls :: post)%list
    ∧ Forall (λ c, rating_mapping c = None) pre
    ∧ rating_mapping cls = Some n.
Proof.
  induction classes as [|c classes IH]; [done|]. simpl.
  destruct (rating_mapping c) as [m|] eqn:Hc.
  - intros [= ->]. by exists [], c, classes.
  - intros (pre & cls & post & -> & Hpre & Hcls)%IH.
    exists (c :: pre), cls, post. by repeat constructor.
Qed.

(** C7: [parse_rating] returns nothing or an integer from 1 to 5. The
    result is that of the first class of the element that is one of the
    tokens [One] .. [Five], spelled exactly so, which map to 1 .. 5; an
    absent element, and an element none of whose classes is a token, give
    nothing. *)
Theorem parse_rating_closed :
  (∀ tag, parse_rating tag = None
          ∨ ∃ n, parse_rating tag = Some n ∧ (1 ≤ n ≤ 5)%Z)
  ∧ (∀ cls n, rating_mapping cls = Some n ↔ (cls, n) ∈ rating_tokens)
  ∧ (∀ t n, parse_rating (Some t) = Some n
            ↔ ∃ pre cls post, tag_get_class t = (pre ++ cls :: post)%list
                ∧ Forall (λ c, rating_mapping c = None) pre
                ∧ rating_mapping cls = Some n)
  ∧ parse_rating None = None
  ∧ (∀ t, Forall (λ c, rating_mapping c = None) (tag_get_class t)
          → parse_rating (Some t) = None)
  ∧ rating_mapping "one" = None ∧ rating_mapping "FIVE" = None.
Proof.
  split.
  { intros [t|]; [|by left]. simpl.
    destruct (first_rating (tag_get_class t)) as [n|] eqn:E; [|by left].
    right. exists n. split; [done|].
    apply first_rating_inv in E as (? & cls & ? & _ & _ & Hcls).
    by eapply rating_mapping_range. }
  split; [exact rating_mapping_tokens|].
  split.
  { intros t n. simpl. split; [apply first_rating_inv|].
    intros (pre & cls & post & -> & ? & ?). by apply first_rating_found. }
  split; [done|].
  split; [|done].
  intros t Ht. simpl. induction Ht as [|c l Hc _ IH]; [done|].
  simpl. by rewrite Hc.
Qed.

(** ** Running computations *)

Lemma bind_eq {A B} (m : M A) (k : A → M B) (w : World) :
  bind m k w
  = match m w with
    | (Ret a, w') => k a w'
    | (Raise e, w') => (Raise e, w')
    | (OutOfFuel, w') => (OutOfFuel, w')
    end.
Proof. reflexivity. Qed.

Lemma bind_ret {A B} (m : M A) (k : A → M B) (w w' : World) (a : A) :
  m w = (Ret a, w') → bind m k w = k a w'.
Proof. intros H. by rewrite bind_eq, H. Qed.

Lemma bind_raise {A B} (m : M A) (k : A → M B) (w w' : World) (e : exn) :
  m w = (Raise e, w') → bind m k w = (Raise e, w').
Proof. intros H. by rewrite bind_eq, H. Qed.

(** ** Merging the details into an item *)

Lemma table_details_app (a b : list (option string * option string))
    (acc : Dict) :
  table_details (a ++ b)%list acc = table_details b (table_details a acc).
Proof.
  revert acc. induction a as [|[[th|] [td|]] a IH]; intros acc; simpl; auto.
Qed.

Lemma table_details_other (k : string)
    (rows : list (option string * option string)) (acc : Dict) :
  Forall (other_key k) rows → table_details rows acc !! k = acc !! k.
Proof.
  intros H. revert acc.
  induction H as [|[[th|] [td|]] rows Hrow _ IH]; intros acc; simpl; auto.
  rewrite IH. by apply lookup_insert_ne.
Qed.

Lemma table_details_last (pre post : list (option string * option string))
    (th td : string) (acc : Dict) :
  Forall (other_key (table_key th)) post →
  table_details (pre ++ (Some th, Some td) :: post)%list acc !! table_key th
  = Some (VStr td).
Proof.
  intros Hpost. rewrite table_details_app. simpl.
  rewrite table_details_other by done. apply lookup_insert_eq.
Qed.

Lemma dict_update_lookup (it extra : Dict) (k : string) :
  dict_update it extra !! k
  = match extra !! k with Some v => Some v | None => it !! k end.
Proof.
  unfold dict_update. destruct (extra !! k) as [v|] eqn:E.
  - by apply lookup_union_Some_l.
  - by apply lookup_union_r.
Qed.

(** C10: when the page of an item is fetched, [detail_item] returns the
    item updated with the detail mapping: every key of the mapping has the
    detail value afterwards, whatever the item held there, and the keys the
    mapping lacks keep the item's cell. A table row with a header and a data
    cell puts the data text under the lower-cased, underscored header (the
    last such row wins), so headers [Title] and [Price] overwrite the
    [title] and [price] of the list page. *)
Theorem detail_merge_overwrites
    (transport : World → string → http_outcome) (html_parser : string → Soup)
    (resolve : string → string → string)
    (it : Dict) (url : string) (soup : Soup) (w w' : World) :
  item_url it = Ret url →
  get_soup transport html_parser url default_max_retries w = (Ret soup, w') →
  let extra := details_of_soup resolve soup url in
  detail_item transport html_parser resolve it w
    = (Ret (dict_update it extra), w')
  ∧ (∀ k v, extra !! k = Some v → dict_update it extra !! k = Some v)
  ∧ (∀ k, extra !! k = None → dict_update it extra !! k = it !! k)
  ∧ (∀ pre th td post,
       table_rows soup = Some (pre ++ (Some th, Some td) :: post)%list →
       Forall (other_key (table_key th)) post →
       extra !! table_key th = Some (VStr td))
  ∧ table_key "Title" = "title" ∧ table_key "Price" = "price".
Proof.
  intros Hurl Hsoup extra. split; [|split; [|split; [|split]]].
  - unfold detail_item, try_except, extract_details, lift.
    rewrite !bind_eq, Hurl. unfold parse_details.
    by rewrite (bind_ret _ _ _ _ _ Hsoup).
  - intros k v Hk. by rewrite dict_update_lookup, Hk.
  - intros k Hk. by rewrite dict_update_lookup, Hk.
  - intros pre th td post Hrows Hpost. unfold extra, details_of_soup.
    rewrite Hrows. apply lookup_union_Some_l.
    by apply table_details_last.
  - done.
Qed.

Lemma detail_merge_overwrites_witness :
  ∃ it', Demo.detail_item Demo.item1 [] = (Ret it', [EvGet "b1"])
    ∧ Demo.item1 !! "title" = Some (VStr "One book")
    ∧ it' !! "title" = Some (VStr "From the table")
    ∧ it' !! "price" = Some (VStr "free")
    ∧ it' !! "rating" = Some (VInt 3).
Proof.
  assert (item_url Demo.item1 = Ret "b1") as Hurl by reflexivity.
  assert (get_soup Demo.transport Demo.html_parser "b1" default_max_retries []
          = (Ret Demo.book_page, [EvGet "b1"])) as Hsoup by reflexivity.
  destruct (detail_merge_overwrites Demo.transport Demo.html_parser
              Demo.resolve _ _ _ _ _ Hurl Hsoup)
    as (Hrun & Hover & Hkeep & Htable & _).
  eexists. split; [exact Hrun|]. split; [reflexivity|].
  split; [|split].
  - apply (Htable [(Some "UPC", Some "a897")] "Title" "From the table"
             [(None, Some "stray"); (Some "Price", Some "free")]);
      [reflexivity|].
    repeat constructor. vm_compute. discriminate.
  - apply (Htable [(Some "UPC", Some "a897");
                   (Some "Title", Some "From the table");
                   (None, Some "stray")] "Price" "free" []);
      [reflexivity|constructor].
  - rewrite Hkeep; reflexivity.
Defined.

(** ** Dropping duplicates *)

Section DropDups.

Variable col : string.

Lemma drop_dups_elem (seen : list (option value)) (df : list Dict) (r : Dict) :
  r ∈ drop_dups col seen df → r ∈ df ∧ r !! col ∉ seen.
Proof.
  revert seen. induction df as [|x df IH]; intros seen; simpl.
  - by intros ?%elem_of_nil.
  - case_bool_decide as Hx.
    + intros [? ?]%IH. split; [by right|done].
    + intros [->|[? Hr]%IH]%elem_of_cons; [by split; [left|]|].
      split; [by right|]. intros ?. apply Hr. by right.
Qed.

Lemma drop_dups_NoDup (seen : list (option value)) (df : list Dict) :
  NoDup ((λ r : Dict, r !! col) <$> drop_dups col seen df).
Proof.
  revert seen. induction df as [|x df IH]; intros seen; simpl.
  - constructor.
  - case_bool_decide as Hx; [apply IH|].
    rewrite fmap_cons. constructor; [|apply IH].
    intros (r & Hk & [_ Hr]%drop_dups_elem)%list_elem_of_fmap.
    apply Hr. rewrite Hk. by left.
Qed.

Lemma drop_dups_cover (seen : list (option value)) (df : list Dict) (r : Dict) :
  r ∈ df →
  r !! col ∈ seen ∨ ∃ r', r' ∈ drop_dups col seen df ∧ r' !! col = r !! col.
Proof.
  revert seen. induction df as [|x df IH]; intros seen; simpl.
  - by intros ?%elem_of_nil.
  - intros [->|Hr]%elem_of_cons.
    + case_bool_decide as Hx; [by left|]. right. exists x. by split; [left|].
    + case_bool_decide as Hx; [by apply IH|].
      destruct (IH (x !! col :: seen) Hr) as [[->|?]%elem_of_cons|(r' & ? & ?)].
      * right. exists x. by split; [left|].
      * by left.
      * right. exists r'. by split; [right|].
Qed.

Lemma drop_dups_first (seen : list (option value)) (df : list Dict) (r' : Dict) :
  r' ∈ drop_dups col seen df →
  ∃ pre post, df = (pre ++ r' :: post)%list
    ∧ Forall (λ r : Dict, r !! col ≠ r' !! col) pre.
Proof.
  revert seen. induction df as [|x df IH]; intros seen; simpl.
  - by intros ?%elem_of_nil.
  - case_bool_decide as Hx.
    + intros Hr. pose proof (drop_dups_elem _ _ _ Hr) as [_ Hns].
      destruct (IH _ Hr) as (pre & post & -> & Hpre).
      exists (x :: pre), post. split; [done|]. constructor; [|done].
      intros E. apply Hns. by rewrite <- E.
    + intros [->|Hr]%elem_of_cons.
      * by exists [], df.
      * pose proof (drop_dups_elem _ _ _ Hr) as [_ Hns].
        destruct (IH _ Hr) as (pre & post & -> & Hpre).
        exists (x :: pre), post. split; [done|]. constructor; [|done].
        intros E. apply Hns. rewrite <- E. by left.
Qed.

Lemma drop_dups_sublist (seen : list (option value)) (df : list Dict) :
  sublist (drop_dups col seen df) df.
Proof.
  revert seen. induction df as [|x df IH]; intros seen; simpl.
  - constructor.
  - case_bool_decide; [apply sublist_cons | apply sublist_skip]; apply IH.
Qed.

End DropDups.

Lemma df_columns_elem (df : list Dict) (c : string) :
  c ∈ df_columns df ↔ ∃ r, r ∈ df ∧ is_Some (r !! c).
Proof.
  unfold df_columns. rewrite elem_of_union_list. split.
  - intros (X & (r & -> & Hr)%list_elem_of_fmap & Hc).
    exists r. split; [done|]. by apply elem_of_dom.
  - intros (r & Hr & Hc). exists (dom r). split.
    + apply list_elem_of_fmap. by exists r.
    + by apply elem_of_dom.
Qed.

Lemma has_url_is_Some (r : Dict) : has_url r → is_Some (r !! "product_url").
Proof. intros [u Hu]. eauto. Qed.

Lemma assemble_drop_dups (rows : list Dict) :
  Forall has_url rows →
  assemble rows = Ret (drop_dups "product_url" [] rows).
Proof.
  intros Hurl. destruct Hurl as [|r0 rows Hr0 Hrows]; [done|].
  assert ("product_url" ∈ df_columns (r0 :: rows)) as Hcol.
  { apply df_columns_elem. exists r0. split; [by left|].
    by apply has_url_is_Some. }
  unfold assemble, df_empty, drop_duplicates.
  rewrite bool_decide_eq_false_2 by done.
  rewrite (bool_decide_eq_false_2 (df_columns _ = ∅)).
  - simpl negb. cbv iota. by rewrite bool_decide_eq_true_2.
  - intros Hnone. rewrite Hnone in Hcol. by apply not_elem_of_empty in Hcol.
Qed.

(** C4: on accumulated rows whose [product_url] cells are strings (as those
    of every crawl are), the assembler returns a frame in which no two rows
    have the same [product_url]; the frame is a subsequence of the rows in
    their order; every [product_url] of the rows is still there; and each
    surviving row is the first row with its [product_url]: no row before it
    in the accumulation has the same one. *)
Theorem assemble_first_seen (rows : list Dict) :
  Forall has_url rows →
  ∃ out, assemble rows = Ret out
    ∧ NoDup ((λ r : Dict, r !! "product_url") <$> out)
    ∧ sublist out rows
    ∧ (∀ r, r ∈ rows →
         ∃ r', r' ∈ out ∧ r' !! "product_url" = r !! "product_url")
    ∧ (∀ r', r' ∈ out →
         ∃ pre post, rows = (pre ++ r' :: post)%list
           ∧ Forall (λ r : Dict, r !! "product_url" ≠ r' !! "product_url")
                    pre).
Proof.
  intros Hurl. exists (drop_dups "product_url" [] rows).
  split; [by apply assemble_drop_dups|].
  split; [apply drop_dups_NoDup|].
  split; [apply drop_dups_sublist|].
  split.
  - intros r Hr.
    destruct (drop_dups_cover "product_url" [] _ _ Hr) as [?%elem_of_nil|?];
      done.
  - intros r'. apply drop_dups_first.
Qed.

Lemma assemble_first_seen_witness :
  ∃ out,
    assemble [Demo.item1; Demo.item2; Demo.item1_again] = Ret out
    ∧ out = [Demo.item1; Demo.item2]
    ∧ NoDup ((λ r : Dict, r !! "product_url") <$> out).
Proof.
  assert (Forall has_url [Demo.item1; Demo.item2; Demo.item1_again])
    as Hurl.
  { repeat constructor; eexists; reflexivity. }
  destruct (assemble_first_seen _ Hurl) as (out & Hrun & Hnodup & _).
  exists out. split; [exact Hrun|]. split; [|exact Hnodup].
  assert (assemble [Demo.item1; Demo.item2; Demo.item1_again]
          = Ret [Demo.item1; Demo.item2]) as Heq by reflexivity.
  rewrite Hrun in Heq. by injection Heq.
Defined.

(** ** The retry loop *)

Section Fetcher.

Variable transport : World → string → http_outcome.
Variable html_parser : string → Soup.

Lemma client_error_status (resp : Response) :
  (400 ≤ status_code resp < 500)%Z → status_code resp ≠ 429%Z →
  retry_status (status_code resp) = false
  ∧ raise_for_status resp
    = Some (RequestException (http_error_msg "Client" resp)).
Proof.
  intros Hst Hne. unfold retry_status, raise_for_status. split.
  - apply orb_false_iff. split; [by apply Z.eqb_neq|].
    apply andb_false_iff. left. apply Z.leb_gt. lia.
  - replace ((400 <=? status_code resp)%Z) with true
      by (symmetry; apply Z.leb_le; lia).
    replace ((status_code resp <? 500)%Z) with true
      by (symmetry; apply Z.ltb_lt; lia).
    done.
Qed.

(** One attempt that ends in the [except] clause. *)
Lemma get_soup_loop_except (url : string) (attempt : Z) (rest : list Z)
    (last : option exn) (w : World) (resp : Response) (e : exn) :
  transport w url = Responded resp →
  retry_status (status_code resp) = false →
  raise_for_status resp = Some e →
  get_soup_loop transport html_parser url (attempt :: rest) last w
  = get_soup_loop transport html_parser url rest (Some e)
      (w ++ [EvGet url; EvSleep (Z.min (2 ^ attempt) 10)])%list.
Proof.
  intros Ht Hr He. cbn [get_soup_loop]. rewrite bind_eq.
  unfold session_get. rewrite Ht, Hr, He. rewrite bind_eq.
  unfold backoff_sleep, emit. by rewrite <- app_assoc.
Qed.

(** One attempt answered by 429 or 5xx. *)
Lemma get_soup_loop_status (url : string) (attempt : Z) (rest : list Z)
    (last : option exn) (w : World) (resp : Response) :
  transport w url = Responded resp →
  retry_status (status_code resp) = true →
  get_soup_loop transport html_parser url (attempt :: rest) last w
  = get_soup_loop transport html_parser url rest last
      (w ++ [EvGet url; EvSleep (Z.min (2 ^ attempt) 10)])%list.
Proof.
  intros Ht Hr. cbn [get_soup_loop]. rewrite bind_eq.
  unfold session_get. rewrite Ht, Hr. rewrite bind_eq.
  unfold backoff_sleep, emit. by rewrite <- app_assoc.
Qed.

Lemma get_soup_loop_always_except (url : string) (resp : Response) (e : exn)
    (attempts : list Z) (last : option exn) (w : World) :
  (∀ w', transport w' url = Responded resp) →
  retry_status (status_code resp) = false →
  raise_for_status resp = Some e →
  get_soup_loop transport html_parser url attempts last w
  = (Raise (RuntimeError
              (failed_to_load url
                 (match attempts with [] => last | _ => Some e end))),
     (w ++ retry_trace url attempts)%list).
Proof.
  intros Ht Hr He. revert last w.
  induction attempts as [|a rest IH]; intros last w.
  - simpl. by rewrite app_nil_r.
  - rewrite (get_soup_loop_except _ _ _ _ _ resp e) by done.
    rewrite IH. cbn [retry_trace flat_map]. rewrite <- app_assoc.
    by destruct rest.
Qed.

Lemma get_soup_loop_always_status (url : string) (resp : Response)
    (attempts : list Z) (last : option exn) (w : World) :
  (∀ w', transport w' url = Responded resp) →
  retry_status (status_code resp) = true →
  get_soup_loop transport html_parser url attempts last w
  = (Raise (RuntimeError (failed_to_load url last)),
     (w ++ retry_trace url attempts)%list).
Proof.
  intros Ht Hr. revert w.
  induction attempts as [|a rest IH]; intros w.
  - simpl. by rewrite app_nil_r.
  - rewrite (get_soup_loop_status _ _ _ _ _ resp) by done.
    rewrite IH. cbn [retry_trace flat_map]. by rewrite <- app_assoc.
Qed.

End Fetcher.

Lemma range_pos (n : Z) : (0 < n)%Z → range n ≠ [].
Proof.
  intros Hn. unfold range. destruct (Z.to_nat n) eqn:E; [lia|done].
Qed.

(** C1, as the code has it: a response with a 4xx status other than 429
    is not raised out of [get_soup]. The [HTTPError] of [raise_for_status]
    is caught like a transport failure: the attempt records it, sleeps
    [min(2^attempt, 10)] seconds and leaves the rest of the attempts to
    run. When the server gives this answer every time, [get_soup] makes all
    [max_retries] requests, sleeps after each, and then raises the
    [RuntimeError] that carries the text of that error. *)
Theorem get_soup_client_error_retried
    (transport : World → string → http_outcome) (html_parser : string → Soup)
    (url : string) (resp : Response) :
  (400 ≤ status_code resp < 500)%Z →
  status_code resp ≠ 429%Z →
  let e := RequestException (http_error_msg "Client" resp) in
  (∀ attempt rest last w,
     transport w url = Responded resp →
     get_soup_loop transport html_parser url (attempt :: rest) last w
     = get_soup_loop transport html_parser url rest (Some e)
         (w ++ [EvGet url; EvSleep (Z.min (2 ^ attempt) 10)])%list)
  ∧ (∀ max_retries w,
       (∀ w', transport w' url = Responded resp) →
       (0 < max_retries)%Z →
       get_soup transport html_parser url max_retries w
       = (Raise (RuntimeError (failed_to_load url (Some e))),
          (w ++ retry_trace url (range max_retries))%list)).
Proof.
  intros Hst Hne e. destruct (client_error_status resp Hst Hne) as [Hr He].
  split.
  - intros attempt rest last w Ht. by apply get_soup_loop_except with resp.
  - intros n w Ht Hn. unfold get_soup.
    rewrite (get_soup_loop_always_except _ _ _ resp e) by done.
    pose proof (range_pos n Hn). by destruct (range n).
Qed.

Lemma get_soup_client_error_retried_witness :
  Demo.get_soup "b2" 3 []
  = (Raise (RuntimeError
       "Failed to load b2: 404 Client Error: Not Found for url: b2"),
     [EvGet "b2"; EvSleep 1; EvGet "b2"; EvSleep 2; EvGet "b2"; EvSleep 4]).
Proof.
  pose (resp := {| status_code := 404; reason := "Not Found";
                   resp_url := "b2"; text := "" |}).
  assert (400 ≤ status_code resp < 500)%Z as Hst by (simpl; lia).
  assert (status_code resp ≠ 429%Z) as Hne by (simpl; lia).
  destruct (get_soup_client_error_retried Demo.transport Demo.html_parser
              "b2" resp Hst Hne) as [_ Hall].
  apply (Hall 3%Z []); [reflexivity|lia].
Defined.

(** C1, the counterexample: the demo server answers 404 for [b2], and
    [get_soup] does not stop after the first request: it asks three times
    and sleeps three times. *)
Lemma client_error_not_immediate :
  Demo.transport [] "b2"
  = Responded {| status_code := 404; reason := "Not Found";
                 resp_url := "b2"; text := "" |}
  ∧ ¬ fails_fast Demo.transport Demo.html_parser "b2" default_max_retries []
  ∧ (Demo.get_soup "b2" default_max_retries []).2
    = [EvGet "b2"; EvSleep 1; EvGet "b2"; EvSleep 2; EvGet "b2"; EvSleep 4].
Proof.
  split; [reflexivity|]. split; [|reflexivity].
  intros [e He]. vm_compute in He. discriminate He.
Qed.

(** C8, at the failing input: the demo server answers 503 for [down] on
    each of the three attempts, and the error raised carries no underlying
    error at all: its text ends in [None]. *)
Theorem get_soup_5xx_loses_error :
  Demo.get_soup "down" default_max_retries []
  = (Raise (RuntimeError "Failed to load down: None"),
     [EvGet "down"; EvSleep 1; EvGet "down"; EvSleep 2;
      EvGet "down"; EvSleep 4]).
Proof. reflexivity. Qed.

(** A transient failure is retried and the page comes back: the flaky
    server loses the first request for [b1] only. *)
Example get_soup_second_attempt :
  get_soup Demo.flaky Demo.html_parser "b1" default_max_retries []
  = (Ret Demo.book_page, [EvGet "b1"; EvSleep 1; EvGet "b1"]).
Proof. reflexivity. Qed.

(** ** What computations do to the world *)

Section Effects.

Context {A B : Type}.

Lemma net_only_ret (a : A) : net_only (ret a).
Proof. intros w. exists []. by rewrite app_nil_r. Qed.

Lemma net_only_raise (e : exn) : net_only (@raise A e).
Proof. intros w. exists []. by rewrite app_nil_r. Qed.

Lemma net_only_lift (r : result A) : net_only (lift r).
Proof. intros w. exists []. by rewrite app_nil_r. Qed.

Lemma net_only_bind (m : M A) (k : A → M B) :
  net_only m → (∀ a, net_only (k a)) → net_only (bind m k).
Proof.
  intros Hm Hk w. destruct (Hm w) as (e1 & H1 & F1). rewrite bind_eq.
  destruct (m w) as [[a|e|] w1]; simpl in H1; subst w1;
    [|by exists e1..].
  destruct (Hk a (w ++ e1)%list) as (e2 & H2 & F2).
  exists (e1 ++ e2)%list. rewrite H2, app_assoc. split; [done|].
  by apply Forall_app.
Qed.

Lemma net_only_try (m : M A) (h : exn → M A) :
  net_only m → (∀ e, net_only (h e)) → net_only (try_except m h).
Proof.
  intros Hm Hh w. destruct (Hm w) as (e1 & H1 & F1). unfold try_except.
  destruct (m w) as [[a|e|] w1]; simpl in H1; subst w1;
    [by exists e1| |by exists e1].
  destruct (Hh e (w ++ e1)%list) as (e2 & H2 & F2).
  exists (e1 ++ e2)%list. rewrite H2, app_assoc. split; [done|].
  by apply Forall_app.
Qed.

Lemma bounded_ret (a : A) : bounded (ret a).
Proof. by intros w. Qed.

Lemma bounded_raise (e : exn) : bounded (@raise A e).
Proof. by intros w. Qed.

Lemma bounded_bind (m : M A) (k : A → M B) :
  bounded m → (∀ a, bounded (k a)) → bounded (bind m k).
Proof.
  intros Hm Hk w. specialize (Hm w). rewrite bind_eq.
  destruct (m w) as [[a|e|] w1]; [apply Hk|done..].
Qed.

Lemma total_bounded (m : M A) : total m → bounded m.
Proof. intros Hm w. destruct (Hm w) as [a Ha]. by rewrite Ha. Qed.

Lemma total_try (m : M A) (h : exn → M A) :
  bounded m → (∀ e, total (h e)) → total (try_except m h).
Proof.
  intros Hm Hh w. specialize (Hm w). unfold try_except.
  destruct (m w) as [[a|e|] w1]; [by exists a|apply Hh|done].
Qed.

Lemma total_bind (m : M A) (k : A → M B) :
  total m → (∀ a, total (k a)) → total (bind m k).
Proof.
  intros Hm Hk w. destruct (Hm w) as [a Ha]. rewrite bind_eq.
  destruct (m w) as [[a'|e|] w1]; simplify_eq/=. apply Hk.
Qed.

End Effects.

Lemma net_only_emit (ev : event) : net_event ev → net_only (emit ev).
Proof. intros Hev w. exists [ev]. split; [done|]. by constructor. Qed.

Lemma bounded_emit (ev : event) : bounded (emit ev).
Proof. by intros w. Qed.

Create HintDb effects.
#[local] Hint Resolve net_only_ret net_only_raise net_only_lift net_only_emit
  bounded_ret bounded_raise bounded_emit : effects.

Section FetcherEffects.

Variable transport : World → string → http_outcome.
Variable html_parser : string → Soup.

Lemma net_only_session_get (url : string) :
  net_only (session_get transport url).
Proof. intros w. exists [EvGet url]. split; [done|]. by constructor. Qed.

Lemma bounded_session_get (url : string) :
  bounded (session_get transport url).
Proof. by intros w. Qed.

Lemma net_only_backoff (attempt : Z) : net_only (backoff_sleep attempt).
Proof. by apply net_only_emit. Qed.

Lemma net_only_get_soup_loop (url : string) (attempts : list Z)
    (last : option exn) :
  net_only (get_soup_loop transport html_parser url attempts last).
Proof.
  revert last. induction attempts as [|a rest IH]; intros last;
    cbn [get_soup_loop]; [auto with effects|].
  apply net_only_bind; [apply net_only_session_get|]. intros [resp|msg].
  - destruct (retry_status _).
    + apply net_only_bind; [apply net_only_backoff|auto].
    + destruct (raise_for_status resp); [|auto with effects].
      apply net_only_bind; [apply net_only_backoff|auto].
  - apply net_only_bind; [apply net_only_backoff|auto].
Qed.

Lemma bounded_get_soup_loop (url : string) (attempts : list Z)
    (last : option exn) :
  bounded (get_soup_loop transport html_parser url attempts last).
Proof.
  revert last. induction attempts as [|a rest IH]; intros last;
    cbn [get_soup_loop]; [auto with effects|].
  apply bounded_bind; [apply bounded_session_get|]. intros [resp|msg].
  - destruct (retry_status _).
    + apply bounded_bind; [apply bounded_emit|auto].
    + destruct (raise_for_status resp); [|auto with effects].
      apply bounded_bind; [apply bounded_emit|auto].
  - apply bounded_bind; [apply bounded_emit|auto].
Qed.

End FetcherEffects.

(** ** The detail pass *)

Section DetailPass.

Variable transport : World → string → http_outcome.
Variable html_parser : string → Soup.
Variable resolve : string → string → string.

#[local] Abbreviation fetch_details :=
  (parse_details transport html_parser resolve).
#[local] Abbreviation extract :=
  (extract_details transport html_parser resolve).
#[local] Abbreviation pass_item :=
  (detail_item transport html_parser resolve).
#[local] Abbreviation pass :=
  (detail_pass transport html_parser resolve).

Lemma net_only_parse_details (url : string) : net_only (fetch_details url).
Proof.
  apply net_only_bind; [apply net_only_get_soup_loop|auto with effects].
Qed.

Lemma bounded_parse_details (url : string) : bounded (fetch_details url).
Proof.
  apply bounded_bind; [apply bounded_get_soup_loop|auto with effects].
Qed.

Lemma net_only_extract_details (it : Dict) : net_only (extract it).
Proof.
  apply net_only_bind; [auto with effects|].
  intros url. apply net_only_parse_details.
Qed.

Lemma bounded_extract_details (it : Dict) : bounded (extract it).
Proof.
  apply bounded_bind; [|intros url; apply bounded_parse_details].
  intros w. unfold lift, item_url. by repeat case_match.
Qed.

Lemma net_only_detail_item (it : Dict) : net_only (pass_item it).
Proof.
  apply net_only_try; [|auto with effects].
  apply net_only_bind; [apply net_only_extract_details|auto with effects].
Qed.

(** The two ways through the [try]. *)
Lemma detail_item_cases (it : Dict) (w : World) :
  (∃ e w', extract it w = (Raise e, w')
     ∧ pass_item it w
       = (Ret (<["details_error" := VStr (str_exn e)]> it), w'))
  ∨ (∃ extra w', extract it w = (Ret extra, w')
       ∧ pass_item it w = (Ret (dict_update it extra), w')).
Proof.
  pose proof (bounded_extract_details it w) as Hb.
  unfold detail_item, try_except. rewrite bind_eq.
  destruct (extract it w) as [[extra|e|] w'] eqn:E; [| |done].
  - right. by exists extra, w'.
  - left. by exists e, w'.
Qed.

Lemma total_detail_item (it : Dict) : total (pass_item it).
Proof.
  intros w.
  destruct (detail_item_cases it w)
    as [(e & w' & _ & ->)|(extra & w' & _ & ->)]; eauto.
Qed.

Lemma table_details_strings (rows : list (option string * option string))
    (acc : Dict) (k : string) (v : value) :
  table_details rows acc !! k = Some v →
  acc !! k = Some v ∨ ∃ td, v = VStr td.
Proof.
  revert acc. induction rows as [|[[th|] [td|]] rows IH]; intros acc; simpl;
    auto.
  intros [Hv|Hv]%IH; [|by right].
  destruct (decide (table_key th = k)) as [<-|Hne].
  - rewrite lookup_insert_eq in Hv. right. exists td. congruence.
  - rewrite lookup_insert_ne in Hv by done. by left.
Qed.

Lemma details_of_soup_url (soup : Soup) (url : string) (v : value) :
  details_of_soup resolve soup url !! "product_url" = Some v →
  ∃ td, v = VStr td.
Proof.
  unfold details_of_soup. intros [Hv|[_ Hv]]%lookup_union_Some_raw.
  - destruct (table_rows soup) as [rows|]; [|done].
    by apply table_details_strings in Hv as [?|?].
  - rewrite !lookup_insert_ne in Hv by done. done.
Qed.

Lemma extract_details_inv (it : Dict) (w w' : World) (extra : Dict) :
  extract it w = (Ret extra, w') →
  ∃ soup url, extra = details_of_soup resolve soup url.
Proof.
  unfold extract_details, parse_details, lift. rewrite !bind_eq.
  destruct (item_url it) as [url| |]; [|done..].
  rewrite bind_eq.
  destruct (get_soup _ _ url _ w) as [[soup| |] w1]; [|done..].
  unfold ret. intros [= <- _]. eauto.
Qed.

Lemma detail_item_has_url (it it' : Dict) (w w' : World) :
  pass_item it w = (Ret it', w') → has_url it → has_url it'.
Proof.
  unfold has_url. intros Hrun [u Hu].
  destruct (detail_item_cases it w)
    as [(e & w1 & _ & H1)|(extra & w1 & He & H1)];
    rewrite H1 in Hrun; simplify_eq.
  - rewrite lookup_insert_ne by done. eauto.
  - rewrite dict_update_lookup.
    destruct (extra !! "product_url") as [v|] eqn:Hv; [|eauto].
    apply extract_details_inv in He as (soup & url & ->).
    apply details_of_soup_url in Hv as [td ->]. eauto.
Qed.

Lemma detail_pass_cons (it : Dict) (rest : list Dict) (w w1 w2 : World)
    (it' : Dict) (rest' : list Dict) :
  pass_item it w = (Ret it', w1) →
  pass rest w1 = (Ret rest', w2) →
  pass (it :: rest) w = (Ret (it' :: rest'), w2).
Proof.
  intros H1 H2. cbn [detail_pass].
  rewrite (bind_ret _ _ _ _ _ H1). by rewrite (bind_ret _ _ _ _ _ H2).
Qed.

(** The pass returns, item by item: the output at [i] is that of
    [detail_item] on item [i], run in the world the items before it left. *)
Lemma detail_pass_items (items : list Dict) (w : World) :
  ∃ out w',
    pass items w = (Ret out, w')
    ∧ length out = length items
    ∧ ∀ i it, items !! i = Some it →
        ∃ wi wi' it',
          pass (take i items) w = (Ret (take i out), wi)
          ∧ pass_item it wi = (Ret it', wi')
          ∧ out !! i = Some it'.
Proof.
  revert w. induction items as [|it0 rest IH]; intros w.
  { exists [], w. repeat split. intros i it Hi. done. }
  destruct (total_detail_item it0 w) as [it0' H0].
  destruct (pass_item it0 w) as [r w1] eqn:E0. simpl in H0. subst r.
  destruct (IH w1) as (out & w' & Hrun & Hlen & Hitems).
  exists (it0' :: out), w'. split; [by eapply detail_pass_cons|].
  split; [simpl; by rewrite Hlen|].
  intros [|i] it Hi; simpl in Hi.
  - simplify_eq. by exists w, w1, it0'.
  - destruct (Hitems i it Hi) as (wi & wi' & it' & Hpre & Hit & Hout).
    exists wi, wi', it'. split; [|done].
    cbn [take]. by eapply detail_pass_cons.
Qed.

Lemma net_only_detail_pass (items : list Dict) : net_only (pass items).
Proof.
  induction items as [|it rest IH]; cbn [detail_pass];
    [auto with effects|].
  apply net_only_bind; [apply net_only_detail_item|]. intros it'.
  apply net_only_bind; [done|auto with effects].
Qed.

Lemma detail_pass_has_url (items out : list Dict) (w w' : World) :
  pass items w = (Ret out, w') →
  Forall has_url items → Forall has_url out.
Proof.
  intros Hrun Hitems. revert w out Hrun.
  induction Hitems as [|it rest Hit _ IH]; intros w out Hrun.
  - cbn [detail_pass] in Hrun. unfold ret in Hrun. simplify_eq.
    constructor.
  - cbn [detail_pass] in Hrun. rewrite bind_eq in Hrun.
    destruct (pass_item it w) as [[it'| |] w1] eqn:E1; [|done..].
    rewrite bind_eq in Hrun.
    destruct (pass rest w1) as [[rest'| |] w2] eqn:E2; [|done..].
    unfold ret in Hrun. simplify_eq. constructor.
    + by eapply detail_item_has_url.
    + by eapply IH.
Qed.

End DetailPass.

(** ** The items of a list page *)

Section ListPage.

Variable resolve : string → string → string.
Variable split_join : string → string.

Lemma parse_card_has_url (card : Card) (base_url : string) (it : Dict) :
  parse_card resolve split_join card base_url = Ret it → has_url it.
Proof.
  unfold parse_card, has_url. destruct (card_link card); [|done].
  intros [= <-]. rewrite !lookup_insert_ne by done.
  rewrite lookup_insert_eq. eauto.
Qed.

Lemma parse_cards_has_url (cards : list Card) (base_url : string)
    (items : list Dict) :
  parse_cards resolve split_join cards base_url = Ret items →
  Forall has_url items.
Proof.
  revert items. induction cards as [|card rest IH]; intros items; simpl.
  - intros [= <-]. constructor.
  - destruct (parse_card _ _ card base_url) as [it| |] eqn:E; [|done..].
    destruct (parse_cards _ _ rest base_url) as [its| |]; [|done..].
    intros [= <-]. constructor; [by eapply parse_card_has_url|by apply IH].
Qed.

Lemma parse_cards_bounded (cards : list Card) (base_url : string) :
  parse_cards resolve split_join cards base_url ≠ OutOfFuel.
Proof.
  induction cards as [|card rest IH]; simpl; [done|].
  unfold parse_card. destruct (card_link card); [|done].
  by destruct (parse_cards _ _ rest base_url).
Qed.

End ListPage.

(** ** The crawl loop *)

Section Crawl.

Variable transport : World → string → http_outcome.
Variable html_parser : string → Soup.
Variable resolve : string → string → string.
Variable split_join : string → string.

#[local] Abbreviation loop :=
  (crawl transport html_parser resolve split_join).
#[local] Abbreviation fetch :=
  (get_soup transport html_parser).
#[local] Abbreviation items_of :=
  (parse_list_page resolve split_join).
#[local] Abbreviation details_if :=
  (with_details_pass transport html_parser resolve).

Lemma crawl_done (fuel : nat) (mp : option Z) (wd : bool)
    (url : option string) (page : Z) (rows : list Dict) (w : World) :
  truthy_url url = false →
  loop fuel mp wd url page rows w
  = (Ret {| cs_url := url; cs_page := page; cs_rows := rows |}, w).
Proof. intros H. destruct fuel; simpl; by rewrite H. Qed.

(** One turn of the loop on a page that is fetched and parsed. *)
Lemma crawl_page (fuel : nat) (mp : option Z) (wd : bool) (u : string)
    (page : Z) (rows : list Dict) (w w1 w2 : World) (soup : Soup)
    (items items' : list Dict) :
  Str.truthy u = true →
  fetch u default_max_retries w = (Ret soup, w1) →
  items_of soup u = Ret items →
  details_if wd items w1 = (Ret items', w2) →
  loop (S fuel) mp wd (Some u) page rows w
  = if limit_reached mp (page + 1) then
      (Ret {| cs_url := Some u; cs_page := page + 1;
              cs_rows := rows ++ items' |}, w2)
    else
      loop fuel mp wd (find_next_page resolve soup u) (page + 1)
           (rows ++ items') w2.
Proof.
  intros Hu Hfetch Hitems Hdetails. cbn [crawl truthy_url from_option id].
  rewrite Hu. cbn [negb]. rewrite (bind_ret _ _ _ _ _ Hfetch).
  rewrite bind_eq. unfold lift at 1. rewrite Hitems.
  unfold with_details_pass in Hdetails.
  rewrite (bind_ret _ _ _ _ _ Hdetails).
  by destruct (limit_reached mp (page + 1)).
Qed.

Lemma details_if_returns (wd : bool) (items : list Dict) (w : World) :
  ∃ items' w', details_if wd items w = (Ret items', w')
    ∧ length items' = length items
    ∧ (Forall has_url items → Forall has_url items').
Proof.
  destruct wd; simpl.
  - destruct (detail_pass_items transport html_parser resolve items w)
      as (out & w' & Hrun & Hlen & _).
    exists out, w'. split; [done|]. split; [done|].
    by eapply detail_pass_has_url.
  - by exists items, w.
Qed.

Lemma net_only_details_if (wd : bool) (items : list Dict) :
  net_only (details_if wd items).
Proof.
  destruct wd; simpl; [apply net_only_detail_pass|apply net_only_ret].
Qed.

Lemma net_only_crawl (fuel : nat) (mp : option Z) (wd : bool)
    (url : option string) (page : Z) (rows : list Dict) :
  net_only (loop fuel mp wd url page rows).
Proof.
  revert url page rows. induction fuel as [|fuel IH]; intros url page rows;
    cbn [crawl]; destruct (negb (truthy_url url));
    auto using net_only_ret, net_only_lift.
  apply net_only_bind; [apply net_only_get_soup_loop|]. intros soup.
  apply net_only_bind; [apply net_only_lift|]. intros items.
  apply net_only_bind; [apply (net_only_details_if wd)|]. intros items'.
  destruct (limit_reached _ _); auto using net_only_ret.
Qed.

Lemma crawl_has_url (fuel : nat) (mp : option Z) (wd : bool)
    (url : option string) (page : Z) (rows : list Dict) (w w' : World)
    (st : CrawlState) :
  loop fuel mp wd url page rows w = (Ret st, w') →
  Forall has_url rows → Forall has_url (cs_rows st).
Proof.
  revert url page rows w.
  induction fuel as [|fuel IH]; intros url page rows w;
    cbn [crawl]; destruct (negb (truthy_url url)); unfold ret, lift;
    try (intros [= <- _]; by simpl); try done.
  rewrite bind_eq.
  destruct (fetch _ _ w) as [[soup| |] w1] eqn:Hf; [|done..].
  rewrite bind_eq. unfold lift.
  destruct (items_of soup _) as [items| |] eqn:Hi; [|done..].
  destruct (details_if_returns wd items w1) as (items' & w2 & Hd & _ & Hurl).
  unfold with_details_pass in Hd. rewrite (bind_ret _ _ _ _ _ Hd).
  intros Hrun Hrows.
  assert (Forall has_url (rows ++ items')%list) as Hall.
  { apply Forall_app. split; [done|]. apply Hurl.
    by eapply parse_cards_has_url. }
  destruct (limit_reached _ _).
  - unfold ret in Hrun. by simplify_eq.
  - by eapply IH.
Qed.

Lemma limit_reached_some (N page : Z) :
  (0 < N)%Z → limit_reached (Some N) page = bool_decide (N ≤ page)%Z.
Proof.
  intros HN. unfold limit_reached.
  replace (N =? 0)%Z with false by (symmetry; apply Z.eqb_neq; lia).
  simpl. case_bool_decide; [by apply Z.leb_le|by apply Z.leb_gt; lia].
Qed.

(** With a limit the counter stays within it, and [N - page] turns are
    enough. *)
Lemma crawl_within_limit (N : Z) (fuel : nat) (wd : bool)
    (url : option string) (page : Z) (rows : list Dict) (w : World) :
  (0 < N)%Z → (page < N)%Z →
  (∀ st, (loop fuel (Some N) wd url page rows w).1 = Ret st →
         (cs_page st ≤ N)%Z)
  ∧ ((Z.to_nat (N - page) ≤ fuel)%nat →
     (loop fuel (Some N) wd url page rows w).1 ≠ OutOfFuel).
Proof.
  intros HN. revert url page rows w.
  induction fuel as [|fuel IH]; intros url page rows w Hpage;
    cbn [crawl]; destruct (negb (truthy_url url)).
  - split; [intros st [= <-]; simpl; lia|done].
  - split; [done|]. simpl. lia.
  - split; [intros st [= <-]; simpl; lia|done].
  - rewrite bind_eq.
    pose proof (bounded_get_soup_loop transport html_parser
                  (default "" url) (range default_max_retries) None w) as Hb.
    fold (fetch (default "" url) default_max_retries) in Hb.
    destruct (fetch _ _ w) as [[soup| |] w1] eqn:Hf; [|done..].
    rewrite bind_eq. unfold lift.
    pose proof (parse_cards_bounded resolve split_join (product_pods soup)
                  (default "" url)) as Hp.
    fold (items_of soup (default "" url)) in Hp.
    destruct (items_of soup _) as [items| |] eqn:Hi; [|done..].
    destruct (details_if_returns wd items w1) as (items' & w2 & Hd & _).
    unfold with_details_pass in Hd. rewrite (bind_ret _ _ _ _ _ Hd).
    rewrite limit_reached_some by done. case_bool_decide as Hl.
    + split; [intros st [= <-]; simpl; lia|done].
    + destruct (IH (find_next_page resolve soup (default "" url))
                   (page + 1)%Z (rows ++ items')%list w2) as [H1 H2]; [lia|].
      split; [done|]. intros Hfuel. apply H2. lia.
Qed.

Lemma crawl_unfold (fuel : nat) (mp : option Z) (wd : bool)
    (url : option string) (page : Z) (rows : list Dict) :
  loop (S fuel) mp wd url page rows
  = if negb (truthy_url url) then
      ret {| cs_url := url; cs_page := page; cs_rows := rows |}
    else
      let u := default "" url in
      let* soup := fetch u default_max_retries in
      let* items := lift (items_of soup u) in
      let* items' := details_if wd items in
      if limit_reached mp (page + 1) then
        ret {| cs_url := url; cs_page := page + 1;
               cs_rows := rows ++ items' |}
      else
        loop fuel mp wd (find_next_page resolve soup u) (page + 1)
             (rows ++ items').
Proof. reflexivity. Qed.

(** Fuel beyond what a crawl needs changes nothing. *)
Lemma crawl_fuel_step (fuel : nat) (mp : option Z) (wd : bool)
    (url : option string) (page : Z) (rows : list Dict) (w : World) :
  (loop fuel mp wd url page rows w).1 ≠ OutOfFuel →
  loop (S fuel) mp wd url page rows w = loop fuel mp wd url page rows w.
Proof.
  revert url page rows w.
  induction fuel as [|fuel IH]; intros url page rows w Hrun.
  - cbn [crawl] in Hrun |- *.
    destruct (negb (truthy_url url)); [done|]. by simpl in Hrun.
  - rewrite (crawl_unfold (S fuel)). rewrite (crawl_unfold fuel) in Hrun |- *.
    destruct (negb (truthy_url url)); [done|].
    unfold bind in Hrun |- *. cbv beta zeta in Hrun |- *.
    destruct (fetch _ _ w) as [[soup| |] w1]; [|done..].
    cbv beta iota in Hrun |- *.
    destruct (lift (items_of soup _) w1) as [[items| |] w2]; [|done..].
    cbv beta iota in Hrun |- *.
    destruct (details_if wd items w2) as [[items'| |] w3]; [|done..].
    cbv beta iota in Hrun |- *.
    destruct (limit_reached mp (page + 1)); [done|]. by apply IH.
Qed.

Lemma crawl_fuel_mono (fuel fuel' : nat) (mp : option Z) (wd : bool)
    (url : option string) (page : Z) (rows : list Dict) (w : World) :
  (loop fuel mp wd url page rows w).1 ≠ OutOfFuel →
  (fuel ≤ fuel')%nat →
  loop fuel' mp wd url page rows w = loop fuel mp wd url page rows w.
Proof.
  intros Hrun Hle. induction Hle as [|fuel' Hle IH]; [done|].
  rewrite crawl_fuel_step; [done|]. by rewrite IH.
Qed.

End Crawl.

(** ** The claims about the crawl *)

(** C2: the detail pass over the [k] items of a page never raises and
    returns [k] items. The item at [i] is processed in the world the items
    before it left; if its extraction raises [e], the item comes out as it
    went in plus a [details_error] cell holding [str(e)], and otherwise it
    comes out updated with its own details. Nothing of one item's failure
    reaches the cells of another. In the crawl, all [k] items are appended to
    the accumulated rows, and the loop goes on to the limit test and the
    next page. *)
Theorem detail_failure_isolated
    (transport : World → string → http_outcome) (html_parser : string → Soup)
    (resolve : string → string → string) (items : list Dict) (w : World) :
  ∃ out w',
    detail_pass transport html_parser resolve items w = (Ret out, w')
    ∧ length out = length items
    ∧ (∀ i it, items !! i = Some it →
         ∃ wi wi',
           detail_pass transport html_parser resolve (take i items) w
           = (Ret (take i out), wi)
           ∧ ((∃ e, extract_details transport html_parser resolve it wi
                    = (Raise e, wi')
                  ∧ out !! i
                    = Some (<["details_error" := VStr (str_exn e)]> it))
              ∨ (∃ extra, extract_details transport html_parser resolve it wi
                          = (Ret extra, wi')
                    ∧ out !! i = Some (dict_update it extra))))
    ∧ (∀ split_join fuel max_pages u page rows soup w0,
         Str.truthy u = true →
         get_soup transport html_parser u default_max_retries w0
         = (Ret soup, w) →
         parse_list_page resolve split_join soup u = Ret items →
         crawl transport html_parser resolve split_join (S fuel) max_pages
               true (Some u) page rows w0
         = if limit_reached max_pages (page + 1) then
             (Ret {| cs_url := Some u; cs_page := page + 1;
                     cs_rows := rows ++ out |}, w')
           else
             crawl transport html_parser resolve split_join fuel max_pages
                   true (find_next_page resolve soup u) (page + 1)
                   (rows ++ out) w').
Proof.
  destruct (detail_pass_items transport html_parser resolve items w)
    as (out & w' & Hrun & Hlen & Hitems).
  exists out, w'. split; [done|]. split; [done|]. split.
  - intros i it Hi.
    destruct (Hitems i it Hi) as (wi & wi1 & it' & Hpre & Hit & Hout).
    destruct (detail_item_cases transport html_parser resolve it wi)
      as [(e & wi' & He & Hit')|(extra & wi' & He & Hit')];
      rewrite Hit' in Hit; simplify_eq; exists wi, wi1; split; try done.
    + left. by exists e.
    + right. by exists extra.
  - intros split_join fuel mp u page rows soup w0 Hu Hfetch Hparse.
    by apply crawl_page with w items.
Qed.

Lemma detail_failure_isolated_witness :
  ∃ out w',
    Demo.detail_pass [Demo.item1; Demo.item2] [] = (Ret out, w')
    ∧ length out = 2
    ∧ out !! 1
      = Some (<["details_error" :=
                  VStr "Failed to load b2: 404 Client Error: Not Found for url: b2"]>
              Demo.item2)
    ∧ out !! 0
      = Some (dict_update Demo.item1
                (details_of_soup Demo.resolve Demo.book_page "b1")).
Proof.
  destruct (detail_failure_isolated Demo.transport Demo.html_parser
              Demo.resolve [Demo.item1; Demo.item2] [])
    as (out & w' & Hrun & Hlen & Hitems & _).
  exists out, w'. split; [exact Hrun|]. split; [exact Hlen|].
  assert (Demo.detail_pass [Demo.item1; Demo.item2] []
          = (Ret [dict_update Demo.item1
                    (details_of_soup Demo.resolve Demo.book_page "b1");
                  <["details_error" :=
                      VStr "Failed to load b2: 404 Client Error: Not Found for url: b2"]>
                    Demo.item2],
             [EvGet "b1"; EvGet "b2"; EvSleep 1; EvGet "b2"; EvSleep 2;
              EvGet "b2"; EvSleep 4])) as Heq by reflexivity.
  unfold Demo.detail_pass in Heq. rewrite Hrun in Heq.
  injection Heq as -> ->. split; reflexivity.
Defined.

(** C3: with a page limit [N > 0] the loop body runs at most [N] times:
    [N] units of fuel, one per list page fetched, are always enough, and the
    page counter, which counts the list pages fetched, ends at [N] at most.
    The limit is tested after the items of a page have been accumulated: on
    the page that brings the counter to [N], the crawl returns with that
    page's items among the rows, whether or not the page has a next link. With
    [N = 1] this is the first page, complete. *)
Theorem page_limit_respected
    (transport : World → string → http_outcome) (html_parser : string → Soup)
    (resolve : string → string → string) (split_join : string → string)
    (N : Z) (wd : bool) :
  (0 < N)%Z →
  (∀ start w fuel,
     (Z.to_nat N ≤ fuel)%nat →
     (crawl transport html_parser resolve split_join fuel (Some N) wd
            (Some start) 0 [] w).1 ≠ OutOfFuel)
  ∧ (∀ start w fuel st w',
       crawl transport html_parser resolve split_join fuel (Some N) wd
             (Some start) 0 [] w = (Ret st, w') →
       (cs_page st ≤ N)%Z)
  ∧ (∀ fuel u page rows w soup w1 items,
       (page + 1 = N)%Z →
       Str.truthy u = true →
       get_soup transport html_parser u default_max_retries w
       = (Ret soup, w1) →
       parse_list_page resolve split_join soup u = Ret items →
       ∃ items' w2,
         with_details_pass transport html_parser resolve wd items w1
         = (Ret items', w2)
         ∧ length items' = length items
         ∧ crawl transport html_parser resolve split_join (S fuel) (Some N)
                 wd (Some u) page rows w
           = (Ret {| cs_url := Some u; cs_page := N;
                     cs_rows := rows ++ items' |}, w2)).
Proof.
  intros HN. split; [|split].
  - intros start w fuel Hfuel.
    apply crawl_within_limit; [done|done|]. by rewrite Z.sub_0_r.
  - intros start w fuel st w' Hrun.
    eapply crawl_within_limit; [done| |by rewrite Hrun]. done.
  - intros fuel u page rows w soup w1 items Hpage Hu Hfetch Hparse.
    destruct (details_if_returns transport html_parser resolve wd items w1)
      as (items' & w2 & Hd & Hlen & _).
    exists items', w2. split; [done|]. split; [done|].
    rewrite (crawl_page _ _ _ _ _ _ _ _ _ _ _ _ _ _ _ _ Hu Hfetch Hparse Hd).
    rewrite limit_reached_some by done.
    rewrite bool_decide_eq_true_2 by lia. by rewrite Hpage.
Qed.

Lemma page_limit_respected_witness :
  ∃ st,
    Demo.crawl 1 (Some 1%Z) false (Some "p1") 0 [] [] = (Ret st, [EvGet "p1"])
    ∧ cs_page st = 1%Z
    ∧ cs_rows st = [Demo.item1; Demo.item2]
    ∧ next_link (Demo.html_parser "p1") = Some (Some "p2").
Proof.
  assert (0 < 1)%Z as H1 by lia.
  destruct (page_limit_respected Demo.transport Demo.html_parser
              Demo.resolve Demo.split_join 1%Z false H1) as (_ & _ & Hlast).
  assert (Demo.get_soup "p1" default_max_retries []
          = (Ret (Demo.html_parser "p1"), [EvGet "p1"])) as Hf by reflexivity.
  assert (parse_list_page Demo.resolve Demo.split_join
            (Demo.html_parser "p1") "p1"
          = Ret [Demo.item1; Demo.item2]) as Hp by reflexivity.
  destruct (Hlast 0%nat "p1" 0%Z [] [] (Demo.html_parser "p1") [EvGet "p1"]
              [Demo.item1; Demo.item2] eq_refl eq_refl Hf Hp)
    as (items' & w2 & Hd & _ & Hrun).
  simpl in Hd. unfold ret in Hd. injection Hd as <- <-.
  eexists. split; [exact Hrun|]. repeat split.
Defined.

(** C5: on a list page that is fetched and parsed and has no next link,
    the loop returns after that page, for any amount of fuel, any page limit
    (set or not) and with or without details: the counter goes up by one, the
    items of the page (after the detail pass, which returns) are the only
    rows added, and the world is the one the page left. *)
Theorem no_next_link_terminates
    (transport : World → string → http_outcome) (html_parser : string → Soup)
    (resolve : string → string → string) (split_join : string → string)
    (fuel : nat) (max_pages : option Z) (wd : bool) (u : string) (page : Z)
    (rows : list Dict) (w w1 : World) (soup : Soup) (items : list Dict) :
  Str.truthy u = true →
  get_soup transport html_parser u default_max_retries w = (Ret soup, w1) →
  next_link soup = None →
  parse_list_page resolve split_join soup u = Ret items →
  ∃ items' w2,
    with_details_pass transport html_parser resolve wd items w1
    = (Ret items', w2)
    ∧ length items' = length items
    ∧ crawl transport html_parser resolve split_join (S fuel) max_pages wd
            (Some u) page rows w
      = (Ret {| cs_url := if limit_reached max_pages (page + 1)
                          then Some u else None;
                cs_page := page + 1;
                cs_rows := rows ++ items' |}, w2).
Proof.
  intros Hu Hfetch Hnext Hparse.
  destruct (details_if_returns transport html_parser resolve wd items w1)
    as (items' & w2 & Hd & Hlen & _).
  exists items', w2. split; [done|]. split; [done|].
  rewrite (crawl_page _ _ _ _ _ _ _ _ _ _ _ _ _ _ _ _ Hu Hfetch Hparse Hd).
  destruct (limit_reached max_pages (page + 1)); [done|].
  unfold find_next_page. rewrite Hnext. by apply crawl_done.
Qed.

Lemma no_next_link_terminates_witness :
  Demo.crawl 5 None true (Some "p3") 2 [] []
  = (Ret {| cs_url := None; cs_page := 3; cs_rows := [] |}, [EvGet "p3"]).
Proof.
  assert (Demo.get_soup "p3" default_max_retries []
          = (Ret (Demo.html_parser "p3"), [EvGet "p3"])) as Hf by reflexivity.
  assert (parse_list_page Demo.resolve Demo.split_join
            (Demo.html_parser "p3") "p3" = Ret []) as Hp by reflexivity.
  destruct (no_next_link_terminates Demo.transport Demo.html_parser
              Demo.resolve Demo.split_join 4 None true "p3" 2 [] []
              [EvGet "p3"] (Demo.html_parser "p3") [] eq_refl Hf eq_refl Hp)
    as (items' & w2 & Hd & _ & Hrun).
  simpl in Hd. unfold ret in Hd. injection Hd as <- <-. exact Hrun.
Defined.

(** C9: when the crawl returns with no rows, [main] returns normally after
    printing the line [No data collected.]; everything else it did to the
    world are the requests and sleeps of the crawl, so no file is written. *)
Theorem empty_result_skips_export
    (transport : World → string → http_outcome) (html_parser : string → Soup)
    (resolve : string → string → string) (split_join : string → string)
    (fuel : nat) (args : Args) (w w' : World) (st : CrawlState) :
  crawl transport html_parser resolve split_join fuel (max_pages_arg args)
        (details args) (Some (start_url args)) 0 [] w = (Ret st, w') →
  cs_rows st = [] →
  ∃ evs, w' = (w ++ evs)%list
    ∧ Forall net_event evs
    ∧ main transport html_parser resolve split_join fuel args w
      = (Ret tt, (w ++ evs ++ [EvPrint "No data collected."])%list).
Proof.
  intros Hrun Hrows.
  destruct (net_only_crawl transport html_parser resolve split_join fuel
              (max_pages_arg args) (details args) (Some (start_url args))
              0 [] w) as (evs & Hw & Hevs).
  rewrite Hrun in Hw. simpl in Hw. subst w'.
  exists evs. split; [done|]. split; [done|].
  unfold main, scrape. rewrite bind_eq. rewrite (bind_ret _ _ _ _ _ Hrun).
  rewrite Hrows. unfold lift, assemble. simpl.
  unfold emit. by rewrite app_assoc.
Qed.

Lemma empty_result_skips_export_witness :
  Demo.main 5 {| start_url := "p3"; max_pages := 0; details := true;
                 output := "books.xlsx" |} []
  = (Ret tt, [EvGet "p3"; EvPrint "No data collected."]).
Proof.
  pose (args := {| start_url := "p3"; max_pages := 0; details := true;
                   output := "books.xlsx" |}).
  assert (Demo.crawl 5 (max_pages_arg args) (details args)
            (Some (start_url args)) 0 [] []
          = (Ret {| cs_url := None; cs_page := 1; cs_rows := [] |},
             [EvGet "p3"])) as Hc by reflexivity.
  destruct (empty_result_skips_export Demo.transport Demo.html_parser
              Demo.resolve Demo.split_join 5 args [] [EvGet "p3"]
              {| cs_url := None; cs_page := 1; cs_rows := [] |} Hc eq_refl)
    as (evs & Hw & _ & Hmain).
  simpl in Hw. subst evs. exact Hmain.
Defined.

(** ** The whole program *)

Section Whole.

Variable transport : World → string → http_outcome.
Variable html_parser : string → Soup.
Variable resolve : string → string → string.
Variable split_join : string → string.

(** The rows of a crawl hold strings in [product_url], so the frame
    [scrape] returns is the rows without their later duplicates, and no two
    of its rows have the same [product_url]. *)
Lemma scrape_drop_dups (fuel : nat) (start : string) (mp : option Z)
    (wd : bool) (w w' : World) (st : CrawlState) :
  crawl transport html_parser resolve split_join fuel mp wd (Some start)
        0 [] w = (Ret st, w') →
  scrape transport html_parser resolve split_join fuel start mp wd w
  = (Ret (drop_dups "product_url" [] (cs_rows st)), w').
Proof.
  intros Hc.
  pose proof (crawl_has_url _ _ _ _ _ _ _ _ _ _ _ _ _ Hc (Forall_nil_2 _))
    as Hurl.
  unfold scrape. rewrite (bind_ret _ _ _ _ _ Hc). unfold lift.
  by rewrite assemble_drop_dups.
Qed.

Lemma scrape_no_duplicates (fuel : nat) (start : string) (mp : option Z)
    (wd : bool) (w w' : World) (df : list Dict) :
  scrape transport html_parser resolve split_join fuel start mp wd w
  = (Ret df, w') →
  NoDup ((λ r : Dict, r !! "product_url") <$> df).
Proof.
  intros Hs. assert (Hs' := Hs). unfold scrape in Hs'. rewrite bind_eq in Hs'.
  destruct (crawl _ _ _ _ fuel mp wd (Some start) 0 [] w)
    as [[st| |] w1] eqn:Hc; [|done..].
  rewrite (scrape_drop_dups _ _ _ _ _ _ _ Hc) in Hs.
  injection Hs as <- _. apply drop_dups_NoDup.
Qed.

(** With rows collected, [main] writes the frame and says so: the empty
    result is told apart from data. *)
Lemma main_exports_rows (fuel : nat) (args : Args) (w w' : World)
    (st : CrawlState) :
  crawl transport html_parser resolve split_join fuel (max_pages_arg args)
        (details args) (Some (start_url args)) 0 [] w = (Ret st, w') →
  cs_rows st ≠ [] →
  ∃ df fmt line,
    df ≠ []
    ∧ main transport html_parser resolve split_join fuel args w
      = (Ret tt, (w' ++ [EvWrite fmt (output args) df; EvPrint line])%list).
Proof.
  intros Hc Hrows.
  pose proof (scrape_drop_dups _ _ _ _ _ _ _ Hc) as Hs.
  pose proof (crawl_has_url _ _ _ _ _ _ _ _ _ _ _ _ _ Hc (Forall_nil_2 _))
    as Hurl.
  destruct (cs_rows st) as [|r rows] eqn:Er; [done|].
  set (df := drop_dups "product_url" [] (r :: rows)) in *.
  assert (r ∈ df) as Hr by (by left).
  assert (df_empty df = false) as Hemp.
  { unfold df_empty. apply orb_false_iff. split.
    - apply bool_decide_eq_false_2. intros Hnil. rewrite Hnil in Hr.
      by apply elem_of_nil in Hr.
    - apply bool_decide_eq_false_2. intros Hnone.
      assert ("product_url" ∈ df_columns df) as Hcol.
      { apply df_columns_elem. exists r. split; [done|].
        apply has_url_is_Some. by inversion Hurl. }
      rewrite Hnone in Hcol. by apply not_elem_of_empty in Hcol. }
  unfold main. rewrite (bind_ret _ _ _ _ _ Hs). rewrite Hemp.
  destruct (Str.endswith _ _); eexists df, _, _;
    (split; [intros Hnil; rewrite Hnil in Hr; by apply elem_of_nil in Hr|]);
    rewrite bind_eq; unfold emit; by rewrite <- app_assoc.
Qed.

End Whole.

(** * Further properties of the code *)

(** ** The fetcher *)

(** X1: the pause of [backoff_sleep] for an attempt number of [range]: at least
    one second, at most ten, doubling up to the fourth attempt. *)
Theorem backoff_sleep_bounds (attempt : Z) (w : World) :
  (0 ≤ attempt)%Z →
  ∃ s, backoff_sleep attempt w = (Ret tt, (w ++ [EvSleep s])%list)
    ∧ (1 ≤ s ≤ 10)%Z
    ∧ ((attempt ≤ 3)%Z → s = (2 ^ attempt)%Z)
    ∧ ((4 ≤ attempt)%Z → s = 10%Z).
Proof.
  intros Ha. exists (Z.min (2 ^ attempt) 10). split; [done|].
  assert (1 ≤ 2 ^ attempt)%Z as H1.
  { change 1%Z with (2 ^ 0)%Z. apply Z.pow_le_mono_r; lia. }
  split; [lia|]. split.
  - intros H3. assert (2 ^ attempt ≤ 2 ^ 3)%Z
      by (apply Z.pow_le_mono_r; lia).
    change (2 ^ 3)%Z with 8%Z in *. lia.
  - intros H4. assert (2 ^ 4 ≤ 2 ^ attempt)%Z
      by (apply Z.pow_le_mono_r; lia).
    change (2 ^ 4)%Z with 16%Z in *. lia.
Qed.

Lemma backoff_sleep_bounds_witness :
  backoff_sleep 2 [] = (Ret tt, [EvSleep 4]).
Proof.
  assert (0 ≤ 2)%Z as H by lia.
  destruct (backoff_sleep_bounds 2 [] H) as (s & Hrun & _ & Hs & _).
  rewrite Hrun. rewrite Hs by lia. reflexivity.
Defined.

Lemma retry_trace_app (url : string) (a b : list Z) :
  retry_trace url (a ++ b)%list
  = (retry_trace url a ++ retry_trace url b)%list.
Proof. unfold retry_trace. by rewrite flat_map_app. Qed.

Lemma range_of_nat (k : nat) : range (Z.of_nat k) = Z.of_nat <$> seq 0 k.
Proof. unfold range. by rewrite Nat2Z.id. Qed.

Lemma range_take (n : Z) (k : nat) :
  (k ≤ Z.to_nat n)%nat → take k (range n) = range (Z.of_nat k).
Proof.
  intros Hk. rewrite range_of_nat. unfold range.
  rewrite <- fmap_take, take_seq. by rewrite Nat.min_l.
Qed.

Lemma range_length (n : Z) : length (range n) = Z.to_nat n.
Proof. unfold range. by rewrite length_fmap, length_seq. Qed.

Lemma range_split (n : Z) (k : nat) :
  (k < Z.to_nat n)%nat →
  range n
  = (range (Z.of_nat k) ++ Z.of_nat k :: drop (S k) (range n))%list.
Proof.
  intros Hk. rewrite <- (range_take n k) by lia.
  symmetry. apply take_drop_middle. unfold range.
  rewrite list_lookup_fmap, lookup_seq_lt by done. done.
Qed.

Section FetcherMore.

Variable transport : World → string → http_outcome.
Variable html_parser : string → Soup.
Variable url : string.

#[local] Abbreviation attempts_loop :=
  (get_soup_loop transport html_parser url).

Lemma loop_fail_step (a : Z) (l : list Z) (last : option exn) (w : World) :
  attempt_fails (transport w url) = true →
  ∃ last', attempts_loop (a :: l) last w
           = attempts_loop l last' (w ++ retry_trace url [a])%list.
Proof.
  intros Hf. cbn [get_soup_loop retry_trace flat_map]. rewrite app_nil_r.
  rewrite bind_eq. unfold session_get.
  destruct (transport w url) as [resp|msg]; simpl in Hf.
  - destruct (retry_status (status_code resp)).
    + exists last. rewrite bind_eq. unfold backoff_sleep, emit.
      by rewrite <- app_assoc.
    + destruct (raise_for_status resp) as [e|]; [|done].
      exists (Some e). rewrite bind_eq. unfold backoff_sleep, emit.
      by rewrite <- app_assoc.
  - exists (Some (RequestException msg)). rewrite bind_eq.
    unfold backoff_sleep, emit. by rewrite <- app_assoc.
Qed.

Lemma loop_success_step (a : Z) (l : list Z) (last : option exn) (w : World)
    (resp : Response) :
  transport w url = Responded resp →
  retry_status (status_code resp) = false →
  raise_for_status resp = None →
  attempts_loop (a :: l) last w
  = (Ret (html_parser (text resp)), (w ++ [EvGet url])%list).
Proof.
  intros Ht Hr Hs. cbn [get_soup_loop]. rewrite bind_eq.
  unfold session_get. by rewrite Ht, Hr, Hs.
Qed.


Lemma loop_fail_prefix (pre l : list Z) (last : option exn) (w : World) :
  (∀ j, (j < length pre)%nat →
        attempt_fails (transport (w ++ retry_trace url (take j pre))%list url)
        = true) →
  ∃ last', attempts_loop (pre ++ l)%list last w
           = attempts_loop l last' (w ++ retry_trace url pre)%list.
Proof.
  revert last w. induction pre as [|b pre IH]; intros last w Hpre.
  - exists last. simpl. by rewrite app_nil_r.
  - destruct (loop_fail_step b (pre ++ l)%list last w) as [last1 H1].
    { specialize (Hpre 0%nat). simpl in Hpre. rewrite app_nil_r in Hpre.
      apply Hpre. lia. }
    destruct (IH last1 (w ++ retry_trace url [b])%list) as [last2 H2].
    { intros j Hj. specialize (Hpre (S j)). cbn [take length] in Hpre.
      rewrite <- app_assoc, <- retry_trace_app. apply Hpre. lia. }
    exists last2. rewrite <- app_comm_cons, H1, H2.
    by rewrite <- app_assoc, <- retry_trace_app.
Qed.


End FetcherMore.



(** X3: [get_soup] returns the first answer that is neither 429, 4xx nor 5xx,
    when it comes within the [max_retries] attempts: after [k] failed
    attempts, each followed by its sleep, the document of attempt [k] is
    returned and nothing more is requested. *)
Theorem get_soup_first_success
    (transport : World → string → http_outcome) (html_parser : string → Soup)
    (url : string) (max_retries : Z) (k : nat) (w : World)
    (resp : Response) :
  (k < Z.to_nat max_retries)%nat →
  (∀ j, (j < k)%nat →
        attempt_fails
          (transport (w ++ retry_trace url (range (Z.of_nat j)))%list url)
        = true) →
  transport (w ++ retry_trace url (range (Z.of_nat k)))%list url
  = Responded resp →
  retry_status (status_code resp) = false →
  raise_for_status resp = None →
  get_soup transport html_parser url max_retries w
  = (Ret (html_parser (text resp)),
     (w ++ retry_trace url (range (Z.of_nat k)) ++ [EvGet url])%list).
Proof.
  intros Hk Hfail Ht Hr Hs. unfold get_soup.
  rewrite (range_split max_retries k Hk).
  destruct (loop_fail_prefix transport html_parser url
              (range (Z.of_nat k))
              (Z.of_nat k :: drop (S k) (range max_retries)) None w)
    as [last' ->].
  { intros j Hj. rewrite range_length, Nat2Z.id in Hj.
    rewrite range_take by (rewrite Nat2Z.id; lia). by apply Hfail. }
  rewrite (loop_success_step _ _ _ _ _ _ _ _ Ht Hr Hs).
  by rewrite <- app_assoc.
Qed.

Lemma get_soup_first_success_witness :
  get_soup Demo.flaky Demo.html_parser "b1" 3 []
  = (Ret Demo.book_page, [EvGet "b1"; EvSleep 1; EvGet "b1"]).
Proof.
  apply (get_soup_first_success Demo.flaky Demo.html_parser "b1" 3 1 []
           (Demo.page "b1")).
  - simpl. lia.
  - intros j Hj. assert (j = 0%nat) as -> by lia. reflexivity.
  - reflexivity.
  - reflexivity.
  - reflexivity.
Defined.

(** X4: with [max_retries] zero or negative the loop body never runs:
    [get_soup] raises at once, without a request, and the text of the error
    ends in [None]. *)
Theorem get_soup_no_attempts
    (transport : World → string → http_outcome) (html_parser : string → Soup)
    (url : string) (max_retries : Z) (w : World) :
  (max_retries ≤ 0)%Z →
  get_soup transport html_parser url max_retries w
  = (Raise (RuntimeError ("Failed to load " +:+ url +:+ ": None")), w).
Proof.
  intros Hn. unfold get_soup, range.
  replace (Z.to_nat max_retries) with 0%nat by lia. reflexivity.
Qed.

Lemma get_soup_no_attempts_witness :
  Demo.get_soup "p1" 0 []
  = (Raise (RuntimeError "Failed to load p1: None"), []).
Proof.
  apply (get_soup_no_attempts Demo.transport Demo.html_parser "p1" 0 []).
  lia.
Defined.

(** X5: when every attempt fails and the last one fails in the transport (the
    request itself raises), the [RuntimeError] carries the text of that
    last exception, after [max_retries] requests and as many sleeps. *)
Theorem get_soup_transport_failure
    (transport : World → string → http_outcome) (html_parser : string → Soup)
    (url : string) (max_retries : Z) (w : World) (msg : string) :
  (0 < max_retries)%Z →
  (∀ j, (j < Z.to_nat max_retries - 1)%nat →
        attempt_fails
          (transport (w ++ retry_trace url (range (Z.of_nat j)))%list url)
        = true) →
  transport (w ++ retry_trace url (range (max_retries - 1)))%list url
  = Failed msg →
  get_soup transport html_parser url max_retries w
  = (Raise (RuntimeError ("Failed to load " +:+ url +:+ ": " +:+ msg)),
     (w ++ retry_trace url (range max_retries))%list).
Proof.
  intros Hn Hfail Ht. unfold get_soup.
  set (m := (Z.to_nat max_retries - 1)%nat).
  assert (Z.of_nat m = max_retries - 1)%Z as Hm by lia.
  assert (m < Z.to_nat max_retries)%nat as Hlt by lia.
  assert (drop (S m) (range max_retries) = []) as Hdrop.
  { apply drop_ge. rewrite range_length. lia. }
  rewrite (range_split max_retries m Hlt), Hdrop, Hm.
  destruct (loop_fail_prefix transport html_parser url
              (range (max_retries - 1)) [(max_retries - 1)%Z] None w)
    as [last' ->].
  { intros j Hj. rewrite range_length in Hj.
    rewrite range_take by lia. apply Hfail. lia. }
  cbn [get_soup_loop]. rewrite bind_eq. unfold session_get. rewrite Ht.
  rewrite bind_eq. unfold backoff_sleep, emit, raise.
  rewrite retry_trace_app. cbn [retry_trace flat_map].
  by rewrite app_nil_r, <- !app_assoc.
Qed.

Lemma get_soup_transport_failure_witness :
  Demo.get_soup "nowhere" 3 []
  = (Raise (RuntimeError "Failed to load nowhere: connection refused"),
     [EvGet "nowhere"; EvSleep 1; EvGet "nowhere"; EvSleep 2;
      EvGet "nowhere"; EvSleep 4]).
Proof.
  apply (get_soup_transport_failure Demo.transport Demo.html_parser
           "nowhere" 3 [] "connection refused").
  - lia.
  - intros j Hj. reflexivity.
  - reflexivity.
Defined.

(** ** The field parsers and extractors *)

Lemma all_chars_app (p : ascii → bool) (a b : string) :
  Str.all_chars p (a +:+ b) = Str.all_chars p a && Str.all_chars p b.
Proof.
  induction a as [|c a IH]; [done|].
  rewrite app_cons. simpl. by rewrite IH, andb_assoc.
Qed.

Lemma length_app_string (a b : string) :
  String.length (a +:+ b) = (String.length a + String.length b)%nat.
Proof. induction a as [|c a IH]; [done|]. rewrite app_cons. simpl. lia. Qed.

Lemma digit_val_nonneg (c : ascii) :
  Str.is_digit c = true → (0 ≤ Float.digit_val c)%Z.
Proof.
  unfold Str.is_digit, Float.digit_val.
  intros [H1 _]%andb_true_iff. apply N.leb_le in H1. lia.
Qed.

Lemma digits_val_nonneg (s : string) (acc : Z) :
  (0 ≤ acc)%Z → Str.all_chars Str.is_digit s = true →
  (0 ≤ Float.digits_val acc s)%Z.
Proof.
  revert acc. induction s as [|c s IH]; intros acc Hacc Hs; [done|].
  simpl in *. apply andb_true_iff in Hs as [Hc Hs].
  apply IH; [|done]. pose proof (digit_val_nonneg c Hc). lia.
Qed.

Lemma of_token_nonneg (s tok : string) :
  PriceSpec.first_token s tok → (0 <= Float.of_token tok)%Q.
Proof.
  intros Htok. unfold Float.of_token.
  assert (∃ ip rest fp,
            Str.span Str.is_digit tok = (ip, rest)
            ∧ fp = match rest with String "." f => f | _ => EmptyString end
            ∧ Str.all_chars Str.is_digit (ip +:+ fp) = true)
    as (ip & rest & fp & -> & <- & Hall).
  { destruct Htok as [pre d post _ _ [_ Hd] _ _
                     |pre d1 d2 post _ _ [_ Hd1] [_ Hd2] _].
    - exists d, "", "". rewrite <- (app_empty_r d) at 1.
      rewrite span_intro by done. by rewrite app_empty_r.
    - exists d1, (String "." d2), d2. rewrite span_intro by done.
      split; [done|]. split; [done|]. by rewrite all_chars_app, Hd1, Hd2. }
  rewrite Qred_correct. unfold Qle. simpl. rewrite Z.mul_1_r.
  by apply digits_val_nonneg.
Qed.

(** X6: [parse_price] never returns a negative number: a sign before the digits
    is not part of the token. *)
Theorem parse_price_nonneg (text : string) (q : Q) :
  parse_price text = Some q → (0 <= q)%Q.
Proof.
  rewrite parse_price_search.
  destruct (Re.search_number _) as [tok|] eqn:E; [|done].
  intros [= <-]. apply search_number_sound in E. by eapply of_token_nonneg.
Qed.

Lemma parse_price_nonneg_witness :
  parse_price "-12,5 EUR" = Some (25 # 2)%Q ∧ (0 <= 25 # 2)%Q.
Proof.
  assert (parse_price "-12,5 EUR" = Some (25 # 2)%Q) as H by reflexivity.
  split; [exact H|]. exact (parse_price_nonneg _ _ H).
Defined.

Section ListPageMore.

Variable resolve : string → string → string.
Variable split_join : string → string.




End ListPageMore.


Lemma table_details_origin (rows : list (option string * option string))
    (acc : Dict) (k : string) (v : value) :
  table_details rows acc !! k = Some v →
  acc !! k = Some v
  ∨ ∃ th td, (Some th, Some td) ∈ rows ∧ k = table_key th ∧ v = VStr td.
Proof.
  revert acc. induction rows as [|[[th|] [td|]] rows IH]; intros acc; simpl;
    [by left| |intros [?|(th' & td' & ? & ?)]%IH;
               [by left|right; exists th', td'; split; [by right|done]]..].
  intros [Hv|(th' & td' & ? & ?)]%IH.
  - destruct (decide (table_key th = k)) as [<-|Hne].
    + rewrite lookup_insert_eq in Hv. right. exists th, td.
      split; [by left|]. split; congruence.
    + rewrite lookup_insert_ne in Hv by done. by left.
  - right. exists th', td'. split; [by right|done].
Qed.

(** X8: the mapping of [parse_details] always has the keys [category],
    [description] and [image_url]; a cell under any other key is the data
    text of a table row whose normalised header is that key. Without a
    table, a page with fewer than three breadcrumbs has the category
    [None]. *)
Theorem details_of_soup_fields
    (resolve : string → string → string) (soup : Soup) (url : string) :
  detail_fields ⊆ dom (details_of_soup resolve soup url)
  ∧ (∀ k v, details_of_soup resolve soup url !! k = Some v →
       k ∉ detail_fields →
       ∃ rows th td, table_rows soup = Some rows
         ∧ (Some th, Some td) ∈ rows ∧ k = table_key th ∧ v = VStr td)
  ∧ (table_rows soup = None → (length (breadcrumb soup) < 3)%nat →
     details_of_soup resolve soup url !! "category" = Some VNone).
Proof.
  unfold details_of_soup. split; [|split].
  - rewrite dom_union_L, !dom_insert_L. unfold detail_fields.
    intros k. rewrite !elem_of_union, !elem_of_singleton. tauto.
  - intros k v Hv Hk. apply lookup_union_Some_raw in Hv as [Hv|[_ Hv]].
    + destruct (table_rows soup) as [rows|]; [|done].
      apply table_details_origin in Hv as [?|(th & td & ? & ? & ?)]; [done|].
      by exists rows, th, td.
    + exfalso. apply Hk. unfold detail_fields.
      apply (elem_of_dom_2 (D:=gset string)) in Hv.
      rewrite !dom_insert_L, dom_empty_L in Hv. set_solver.
  - intros Hrows Hlen. rewrite Hrows. rewrite lookup_union_r by done.
    rewrite lookup_insert_eq.
    by replace (3 <=? length (breadcrumb soup))%nat with false
      by (symmetry; apply Nat.leb_gt; lia).
Qed.




(** ** The assembler *)

Lemma drop_dups_id (col : string) (seen : list (option value))
    (df : list Dict) :
  NoDup ((λ r : Dict, r !! col) <$> df) →
  (∀ r, r ∈ df → r !! col ∉ seen) →
  drop_dups col seen df = df.
Proof.
  revert seen. induction df as [|x df IH]; intros seen Hnd Hseen; [done|].
  rewrite fmap_cons in Hnd. apply NoDup_cons in Hnd as [Hx Hnd]. simpl.
  rewrite bool_decide_eq_false_2 by (apply Hseen; by left).
  f_equal. apply IH; [done|]. intros r Hr [Heq|?]%elem_of_cons.
  - apply Hx. apply list_elem_of_fmap. by exists r.
  - apply (Hseen r); [by right|done].
Qed.

Lemma drop_dups_has_url (rows : list Dict) :
  Forall has_url rows → Forall has_url (drop_dups "product_url" [] rows).
Proof.
  rewrite !Forall_forall. intros Hall r Hr.
  apply drop_dups_elem in Hr as [Hr _]. by apply Hall.
Qed.

(** X10: rows whose [product_url] strings are pairwise different pass the
    assembler unchanged: nothing is dropped and nothing is moved. *)
Theorem assemble_distinct_rows (rows : list Dict) :
  Forall has_url rows →
  NoDup ((λ r : Dict, r !! "product_url") <$> rows) →
  assemble rows = Ret rows.
Proof.
  intros Hurl Hnd. rewrite assemble_drop_dups by done.
  f_equal. apply drop_dups_id; [done|]. intros r _ Hr.
  by apply elem_of_nil in Hr.
Qed.

Lemma assemble_distinct_rows_witness :
  assemble [Demo.item1; Demo.item2] = Ret [Demo.item1; Demo.item2].
Proof.
  apply assemble_distinct_rows.
  - repeat constructor; eexists; reflexivity.
  - apply (bool_decide_unpack _). vm_compute. reflexivity.
Defined.

(** X11: assembling is idempotent: the frame it returns is left as it is by a
    second pass. *)
Theorem assemble_idempotent (rows : list Dict) :
  Forall has_url rows →
  ∃ out, assemble rows = Ret out ∧ assemble out = Ret out.
Proof.
  intros Hurl. exists (drop_dups "product_url" [] rows).
  split; [by apply assemble_drop_dups|].
  rewrite assemble_drop_dups by by apply drop_dups_has_url.
  f_equal. apply drop_dups_id; [apply drop_dups_NoDup|].
  intros r _ Hr. by apply elem_of_nil in Hr.
Qed.

Lemma assemble_idempotent_witness :
  assemble [Demo.item1; Demo.item2; Demo.item1_again]
  = Ret [Demo.item1; Demo.item2]
  ∧ assemble [Demo.item1; Demo.item2] = Ret [Demo.item1; Demo.item2].
Proof.
  assert (Forall has_url [Demo.item1; Demo.item2; Demo.item1_again])
    as Hurl by (repeat constructor; eexists; reflexivity).
  destruct (assemble_idempotent _ Hurl) as (out & H1 & H2).
  assert (assemble [Demo.item1; Demo.item2; Demo.item1_again]
          = Ret [Demo.item1; Demo.item2]) as Heq by reflexivity.
  rewrite H1 in Heq. injection Heq as ->. by split.
Defined.

Lemma NoDup_preferred : NoDup preferred.
Proof. apply (bool_decide_unpack _). vm_compute. reflexivity. Qed.

(** X12: the list of columns [scrape] selects is a rearrangement of the frame's
    columns (whose names are distinct): none is lost and none is doubled. It
    is made of a front, the preferred names the frame has, in the order of
    [preferred], and a back, the other columns in the order they had. *)
Theorem order_columns_permutation (columns : list string) :
  NoDup columns →
  order_columns columns ≡ₚ columns
  ∧ ∃ front back,
      order_columns columns = (front ++ back)%list
      ∧ sublist front preferred
      ∧ sublist back columns
      ∧ Forall (λ c, c ∈ columns) front
      ∧ Forall (λ c, c ∉ preferred) back
      ∧ (∀ c, c ∈ columns → c ∈ preferred → c ∈ front).
Proof.
  intros Hnd. split.
  - apply NoDup_Permutation; [|done|].
    + unfold order_columns. apply NoDup_app. split; [|split].
      * apply NoDup_filter, NoDup_preferred.
      * intros c [_ Hc]%list_elem_of_filter [Hn _]%list_elem_of_filter. done.
      * by apply NoDup_filter.
    + intros c. unfold order_columns.
      rewrite elem_of_app, !list_elem_of_filter.
      destruct (decide (c ∈ preferred)); tauto.
  - exists (filter (λ c, c ∈ columns) preferred),
           (filter (λ c, c ∉ preferred) columns).
    split; [done|]. split; [apply sublist_filter|].
    split; [apply sublist_filter|].
    split; [|split].
    + apply Forall_forall. by intros c [? _]%list_elem_of_filter.
    + apply Forall_forall. by intros c [? _]%list_elem_of_filter.
    + intros c ? ?. by apply list_elem_of_filter.
Qed.

Lemma order_columns_permutation_witness :
  order_columns ["upc"; "product_url"; "details_error"; "title"; "price"]
  = ["title"; "price"; "product_url"; "upc"; "details_error"]
  ∧ order_columns ["upc"; "product_url"; "details_error"; "title"; "price"]
    ≡ₚ ["upc"; "product_url"; "details_error"; "title"; "price"].
Proof.
  split; [vm_compute; reflexivity|].
  apply order_columns_permutation.
  apply (bool_decide_unpack _). vm_compute. reflexivity.
Defined.

(** ** The crawl and [main] *)

Section CrawlMore.

Variable transport : World → string → http_outcome.
Variable html_parser : string → Soup.
Variable resolve : string → string → string.
Variable split_join : string → string.

#[local] Abbreviation run_crawl :=
  (crawl transport html_parser resolve split_join).

Lemma crawl_grows (fuel : nat) (mp : option Z) (wd : bool)
    (url : option string) (page : Z) (rows : list Dict) (w w' : World)
    (st : CrawlState) :
  run_crawl fuel mp wd url page rows w = (Ret st, w') →
  rows `prefix_of` cs_rows st ∧ (page ≤ cs_page st)%Z.
Proof.
  revert url page rows w.
  induction fuel as [|fuel IH]; intros url page rows w.
  { cbn [crawl]. destruct (negb (truthy_url url)); [|done].
    intros [= <- _]. simpl. split; [done|lia]. }
  rewrite crawl_unfold. destruct (negb (truthy_url url)).
  { intros [= <- _]. simpl. split; [done|lia]. }
  unfold bind. cbv beta zeta.
  destruct (get_soup _ _ _ _ w) as [[soup| |] w1]; [|done..].
  destruct (lift _ w1) as [[items| |] w2]; [|done..].
  destruct (with_details_pass _ _ _ wd items w2) as [[items'| |] w3];
    [|done..].
  destruct (limit_reached mp (page + 1)).
  - intros [= <- _]. simpl. split; [by apply prefix_app_r|lia].
  - intros [Hp Hc]%IH. split; [|lia].
    etrans; [|exact Hp]. by apply prefix_app_r.
Qed.

Lemma crawl_zero_is_none (fuel : nat) (wd : bool) (url : option string)
    (page : Z) (rows : list Dict) (w : World) :
  run_crawl fuel (Some 0%Z) wd url page rows w
  = run_crawl fuel None wd url page rows w.
Proof.
  revert url page rows w.
  induction fuel as [|fuel IH]; intros url page rows w; [done|].
  rewrite !crawl_unfold. destruct (negb (truthy_url url)); [done|].
  unfold bind. cbv beta zeta.
  destruct (get_soup _ _ _ _ w) as [[soup| |] w1]; [|done..].
  destruct (lift _ w1) as [[items| |] w2]; [|done..].
  destruct (with_details_pass _ _ _ wd items w2) as [[items'| |] w3];
    [|done..].
  cbn [limit_reached Z.eqb negb andb]. apply IH.
Qed.

Lemma get_soup_steady (u : string) (resp : Response) (w : World) :
  (∀ w', transport w' u = Responded resp) →
  retry_status (status_code resp) = false →
  raise_for_status resp = None →
  get_soup transport html_parser u default_max_retries w
  = (Ret (html_parser (text resp)), (w ++ [EvGet u])%list).
Proof.
  intros Ht Hr Hs. unfold get_soup.
  change (range default_max_retries) with [0; 1; 2]%Z.
  by apply loop_success_step.
Qed.

Lemma crawl_cycle (u : string) (resp : Response) (items : list Dict)
    (fuel : nat) (wd : bool) (page : Z) (rows : list Dict) (w : World) :
  Str.truthy u = true →
  (∀ w', transport w' u = Responded resp) →
  retry_status (status_code resp) = false →
  raise_for_status resp = None →
  parse_list_page resolve split_join (html_parser (text resp)) u
  = Ret items →
  find_next_page resolve (html_parser (text resp)) u = Some u →
  (run_crawl fuel None wd (Some u) page rows w).1 = OutOfFuel.
Proof.
  intros Hu Ht Hr Hs Hparse Hnext. revert page rows w.
  induction fuel as [|fuel IH]; intros page rows w.
  { cbn [crawl truthy_url]. by rewrite Hu. }
  destruct (details_if_returns transport html_parser resolve wd items
              (w ++ [EvGet u])%list) as (items' & w2 & Hd & _).
  rewrite (crawl_page _ _ _ _ _ _ _ _ _ _ _ _ _ _ _ _ Hu
             (get_soup_steady u resp w Ht Hr Hs) Hparse Hd).
  cbn [limit_reached]. rewrite Hnext. apply IH.
Qed.

End CrawlMore.

(** X13: during a crawl the accumulated rows only grow at the end: what was
    collected before a turn of the loop is a prefix of what the loop returns,
    and the page counter never goes down. *)
Theorem crawl_rows_grow
    (transport : World → string → http_outcome) (html_parser : string → Soup)
    (resolve : string → string → string) (split_join : string → string)
    (fuel : nat) (max_pages : option Z) (wd : bool) (url : option string)
    (page : Z) (rows : list Dict) (w w' : World) (st : CrawlState) :
  crawl transport html_parser resolve split_join fuel max_pages wd url page
        rows w = (Ret st, w') →
  rows `prefix_of` cs_rows st ∧ (page ≤ cs_page st)%Z.
Proof. apply crawl_grows. Qed.

Lemma crawl_rows_grow_witness :
  Demo.crawl 5 (Some 1%Z) false (Some "p1") 0 [Demo.item1_again] []
  = (Ret {| cs_url := Some "p1"; cs_page := 1;
            cs_rows := [Demo.item1_again; Demo.item1; Demo.item2] |},
     [EvGet "p1"])
  ∧ [Demo.item1_again]
    `prefix_of` [Demo.item1_again; Demo.item1; Demo.item2].
Proof.
  assert (Demo.crawl 5 (Some 1%Z) false (Some "p1") 0 [Demo.item1_again] []
          = (Ret {| cs_url := Some "p1"; cs_page := 1;
                    cs_rows := [Demo.item1_again; Demo.item1; Demo.item2] |},
             [EvGet "p1"])) as Hrun by reflexivity.
  split; [exact Hrun|].
  exact (proj1 (crawl_rows_grow _ _ _ _ _ _ _ _ _ _ _ _ _ Hrun)).
Defined.

(** X14: a page limit of [0] passed to [scrape] is no limit at all: the crawl
    runs exactly as with [None]. *)
Theorem crawl_limit_zero
    (transport : World → string → http_outcome) (html_parser : string → Soup)
    (resolve : string → string → string) (split_join : string → string)
    (fuel : nat) (start : string) (wd : bool) (w : World) :
  scrape transport html_parser resolve split_join fuel start (Some 0%Z) wd w
  = scrape transport html_parser resolve split_join fuel start None wd w.
Proof. unfold scrape. rewrite !bind_eq. by rewrite crawl_zero_is_none. Qed.

(** X15: a negative page limit stops the crawl after its first page: the test
    [page >= max_pages] holds as soon as one page is counted. *)
Theorem crawl_negative_limit
    (transport : World → string → http_outcome) (html_parser : string → Soup)
    (resolve : string → string → string) (split_join : string → string)
    (fuel : nat) (N : Z) (wd : bool) (u : string) (w w1 : World)
    (soup : Soup) (items : list Dict) :
  (N < 0)%Z →
  Str.truthy u = true →
  get_soup transport html_parser u default_max_retries w = (Ret soup, w1) →
  parse_list_page resolve split_join soup u = Ret items →
  ∃ items' w2,
    with_details_pass transport html_parser resolve wd items w1
    = (Ret items', w2)
    ∧ crawl transport html_parser resolve split_join (S fuel) (Some N) wd
            (Some u) 0 [] w
      = (Ret {| cs_url := Some u; cs_page := 1; cs_rows := items' |}, w2).
Proof.
  intros HN Hu Hfetch Hparse.
  destruct (details_if_returns transport html_parser resolve wd items w1)
    as (items' & w2 & Hd & _).
  exists items', w2. split; [done|].
  rewrite (crawl_page _ _ _ _ _ _ _ _ _ _ _ _ _ _ _ _ Hu Hfetch Hparse Hd).
  unfold limit_reached.
  replace (N =? 0)%Z with false by (symmetry; apply Z.eqb_neq; lia).
  replace (N <=? 0 + 1)%Z with true by (symmetry; apply Z.leb_le; lia).
  done.
Qed.

Lemma crawl_negative_limit_witness :
  Demo.crawl 5 (Some (-4)%Z) false (Some "p1") 0 [] []
  = (Ret {| cs_url := Some "p1"; cs_page := 1;
            cs_rows := [Demo.item1; Demo.item2] |}, [EvGet "p1"]).
Proof.
  assert (-4 < 0)%Z as HN by lia.
  assert (Demo.get_soup "p1" default_max_retries []
          = (Ret (Demo.html_parser "p1"), [EvGet "p1"])) as Hf by reflexivity.
  assert (parse_list_page Demo.resolve Demo.split_join
            (Demo.html_parser "p1") "p1"
          = Ret [Demo.item1; Demo.item2]) as Hp by reflexivity.
  destruct (crawl_negative_limit Demo.transport Demo.html_parser
              Demo.resolve Demo.split_join 4 (-4) false "p1" []
              [EvGet "p1"] _ _ HN eq_refl Hf Hp)
    as (items' & w2 & Hd & Hrun).
  simpl in Hd. unfold ret in Hd. injection Hd as <- <-. exact Hrun.
Defined.

(** X16: the crawl does not notice a cycle: when a page that the server always
    serves has a next link that resolves to the page itself (as a next
    anchor without [href] does), a crawl without page limit never leaves the
    loop, whatever fuel it is given. *)
Theorem crawl_self_link_diverges
    (transport : World → string → http_outcome) (html_parser : string → Soup)
    (resolve : string → string → string) (split_join : string → string)
    (u : string) (resp : Response) (items : list Dict) :
  Str.truthy u = true →
  (∀ w, transport w u = Responded resp) →
  retry_status (status_code resp) = false →
  raise_for_status resp = None →
  parse_list_page resolve split_join (html_parser (text resp)) u
  = Ret items →
  find_next_page resolve (html_parser (text resp)) u = Some u →
  ∀ fuel wd page rows w,
    (crawl transport html_parser resolve split_join fuel None wd (Some u)
           page rows w).1 = OutOfFuel.
Proof.
  intros Hu Ht Hr Hs Hparse Hnext fuel wd page rows w.
  by eapply crawl_cycle.
Qed.

Lemma crawl_self_link_diverges_witness :
  next_link (Demo2.html_parser "loop") = Some None
  ∧ ∀ fuel, (Demo2.crawl fuel None false (Some "loop") 0 [] []).1
            = OutOfFuel.
Proof.
  split; [reflexivity|]. intros fuel.
  apply (crawl_self_link_diverges Demo2.transport Demo2.html_parser
           Demo.resolve Demo.split_join "loop" (Demo.page "loop")
           [Demo.item1]); reflexivity.
Defined.

(** X17: [scrape] only ever sends requests and sleeps: whether it returns or
    raises, it prints nothing and writes no file. *)
Theorem scrape_net_only
    (transport : World → string → http_outcome) (html_parser : string → Soup)
    (resolve : string → string → string) (split_join : string → string)
    (fuel : nat) (start : string) (max_pages : option Z) (wd : bool) :
  net_only (scrape transport html_parser resolve split_join fuel start
                   max_pages wd).
Proof.
  apply net_only_bind; [apply net_only_crawl|].
  intros st. apply net_only_lift.
Qed.

(** X18: when the crawl raises, on the first list page or on a later one,
    [main] raises the same exception: nothing is printed and no file is
    written, so the rows of the pages before are lost. *)
Theorem main_crawl_failure
    (transport : World → string → http_outcome) (html_parser : string → Soup)
    (resolve : string → string → string) (split_join : string → string)
    (fuel : nat) (args : Args) (w w' : World) (e : exn) :
  crawl transport html_parser resolve split_join fuel (max_pages_arg args)
        (details args) (Some (start_url args)) 0 [] w = (Raise e, w') →
  main transport html_parser resolve split_join fuel args w = (Raise e, w')
  ∧ ∃ evs, w' = (w ++ evs)%list ∧ Forall net_event evs.
Proof.
  intros Hrun. split.
  - unfold main, scrape. rewrite bind_eq.
    by rewrite (bind_raise _ _ _ _ _ Hrun).
  - destruct (net_only_crawl transport html_parser resolve split_join fuel
                (max_pages_arg args) (details args) (Some (start_url args))
                0 [] w) as (evs & Hw & Hevs).
    rewrite Hrun in Hw. by exists evs.
Qed.

Lemma main_crawl_failure_witness :
  Demo2.main 5 {| start_url := "q1"; max_pages := 0; details := false;
                  output := "books.xlsx" |} []
  = (Raise (RuntimeError "Failed to load nowhere: connection refused"),
     [EvGet "q1"; EvGet "nowhere"; EvSleep 1; EvGet "nowhere"; EvSleep 2;
      EvGet "nowhere"; EvSleep 4]).
Proof.
  pose (args := {| start_url := "q1"; max_pages := 0; details := false;
                   output := "books.xlsx" |}).
  assert (Demo2.crawl 5 (max_pages_arg args) (details args)
            (Some (start_url args)) 0 [] []
          = (Raise (RuntimeError "Failed to load nowhere: connection refused"),
             [EvGet "q1"; EvGet "nowhere"; EvSleep 1; EvGet "nowhere";
              EvSleep 2; EvGet "nowhere"; EvSleep 4])) as Hc by reflexivity.
  exact (proj1 (main_crawl_failure Demo2.transport Demo2.html_parser
                  Demo.resolve Demo.split_join 5 args [] _ _ Hc)).
Defined.

(** X19: with an empty start URL the loop is never entered: [main] sends no
    request and prints [No data collected.], for any fuel. *)
Theorem main_empty_start_url
    (transport : World → string → http_outcome) (html_parser : string → Soup)
    (resolve : string → string → string) (split_join : string → string)
    (fuel : nat) (args : Args) (w : World) :
  start_url args = "" →
  main transport html_parser resolve split_join fuel args w
  = (Ret tt, (w ++ [EvPrint "No data collected."])%list).
Proof.
  intros Hs. unfold main, scrape. rewrite Hs.
  rewrite !bind_eq. by rewrite crawl_done.
Qed.

Lemma main_empty_start_url_witness :
  Demo.main 0 {| start_url := ""; max_pages := 3; details := true;
                 output := "books.csv" |} []
  = (Ret tt, [EvPrint "No data collected."]).
Proof.
  apply (main_empty_start_url Demo.transport Demo.html_parser Demo.resolve
           Demo.split_join 0
           {| start_url := ""; max_pages := 3; details := true;
              output := "books.csv" |} []).
  reflexivity.
Defined.

(** X20: when the crawl returns rows, [main] writes one file and then prints one
    line: the frame written is the rows without their later duplicates, the
    format is CSV exactly when the output name ends in [.csv] in any letter
    case and Excel otherwise, and the count printed is the number of rows
    written. *)
Theorem main_export
    (transport : World → string → http_outcome) (html_parser : string → Soup)
    (resolve : string → string → string) (split_join : string → string)
    (fuel : nat) (args : Args) (w w' : World) (st : CrawlState) :
  crawl transport html_parser resolve split_join fuel (max_pages_arg args)
        (details args) (Some (start_url args)) 0 [] w = (Ret st, w') →
  cs_rows st ≠ [] →
  let df := drop_dups "product_url" [] (cs_rows st) in
  let fmt := if Str.endswith (Str.lower (output args)) ".csv"
             then Csv else Excel in
  main transport html_parser resolve split_join fuel args w
  = (Ret tt,
     (w' ++ [EvWrite fmt (output args) df;
             EvPrint ("Saved " +:+ pretty (length df) +:+ " records "
                      +:+ arrow +:+ " " +:+ output args)])%list)
  ∧ (0 < length df)%nat
  ∧ NoDup ((λ r : Dict, r !! "product_url") <$> df).
Proof.
  intros Hc Hrows df fmt.
  pose proof (scrape_drop_dups _ _ _ _ _ _ _ _ _ _ _ Hc) as Hs.
  pose proof (crawl_has_url _ _ _ _ _ _ _ _ _ _ _ _ _ Hc (Forall_nil_2 _))
    as Hurl.
  fold df in Hs.
  assert (∃ r, r ∈ df ∧ has_url r) as (r & Hr & Hru).
  { subst df. destruct (cs_rows st) as [|r rows]; [done|].
    exists r. split; [by left|]. by inversion Hurl. }
  assert (0 < length df)%nat as Hlen.
  { destruct df; [by apply elem_of_nil in Hr|simpl; lia]. }
  assert (df_empty df = false) as Hemp.
  { unfold df_empty. apply orb_false_iff. split.
    - apply bool_decide_eq_false_2. intros Hnil. rewrite Hnil in Hlen.
      simpl in Hlen. lia.
    - apply bool_decide_eq_false_2. intros Hnone.
      assert ("product_url" ∈ df_columns df) as Hcol.
      { apply df_columns_elem. exists r. split; [done|].
        by apply has_url_is_Some. }
      rewrite Hnone in Hcol. by apply not_elem_of_empty in Hcol. }
  split; [|split; [done|apply drop_dups_NoDup]].
  unfold main. rewrite (bind_ret _ _ _ _ _ Hs). rewrite Hemp.
  subst fmt. destruct (Str.endswith _ _);
    rewrite bind_eq; unfold emit; by rewrite <- app_assoc.
Qed.

Lemma main_export_witness :
  Demo.main 5 {| start_url := "p1"; max_pages := 1; details := false;
                 output := "Out.CSV" |} []
  = (Ret tt,
     [EvGet "p1"; EvWrite Csv "Out.CSV" [Demo.item1; Demo.item2];
      EvPrint ("Saved 2 records " +:+ arrow +:+ " Out.CSV")]).
Proof.
  pose (args := {| start_url := "p1"; max_pages := 1; details := false;
                   output := "Out.CSV" |}).
  assert (Demo.crawl 5 (max_pages_arg args) (details args)
            (Some (start_url args)) 0 [] []
          = (Ret {| cs_url := Some "p1"; cs_page := 1;
                    cs_rows := [Demo.item1; Demo.item2] |}, [EvGet "p1"]))
    as Hc by reflexivity.
  assert (cs_rows {| cs_url := Some "p1"; cs_page := 1;
                     cs_rows := [Demo.item1; Demo.item2] |} ≠ [])
    as Hne by discriminate.
  exact (proj1 (main_export Demo.transport Demo.html_parser Demo.resolve
                  Demo.split_join 5 args [] _ _ Hc Hne)).
Defined.
